(** * Dual-servo sorting controller (arduino.cxx): model and verification

    The firmware is a single sketch: global variables, [setup], [loop] and
    the functions they call.  The sketch is embedded as functions over an
    explicit record of its globals, in a state-and-exception monad.  Every
    call into the Arduino platform (Serial, Servo, delay, digitalWrite) is
    recorded, in program order, in a history of events; the servos'
    commanded angles and the text sent over the serial link are read off
    that history. *)

From Stdlib Require Import ZArith String Ascii List Bool Lia DecimalString Sorted.
From Equations Require Import Equations.
Import ListNotations.

Open Scope string_scope.
Open Scope list_scope.
Open Scope Z_scope.

(* ====================================================================== *)
(** ** Configuration constants (arduino.cxx, lines 17-38) *)

Definition SERVO1_PIN : Z := 12.
Definition SERVO2_PIN : Z := 13.

Definition LEFT_POSITION : Z := 0.
Definition RIGHT_POSITION : Z := 180.
Definition CENTER_POSITION : Z := 90.

Definition SERVO2_ACTIVE : Z := 90.
Definition SERVO2_IDLE : Z := 0.

Definition MOVE_TIME : Z := 800.
Definition HOLD_TIME : Z := 600.
Definition STEP_DELAY : Z := 15.

Definition BAUD_RATE : Z := 115200.
Definition SERIAL_TIMEOUT : Z := 2000.

(* ====================================================================== *)
(** ** Machine integers

    [unsigned long] is 32 bits wide on the Arduino targets; arithmetic on it
    is modulo 2^32.  [int] values of the sketch are kept in [Z].  The only
    arithmetic the sketch does on an [int] is [pos += step] in
    [moveServoSmoothly], where the loop condition keeps [pos] within two
    degrees of the interval between the end points; the targets the sketch
    passes are 0, 90 and 180, so no [int] of the sketch overflows. *)

Definition ULONG_MODULUS : Z := 2 ^ 32.

Definition ulong (z : Z) : Z := z mod ULONG_MODULUS.

(** [x++] on an [unsigned long]. *)
Definition ulong_incr (x : Z) : Z := ulong (x + 1).

(** [a - b] on [unsigned long]. *)
Definition ulong_sub (a b : Z) : Z := ulong (a - b).

(* ====================================================================== *)
(** ** Arduino [String] operations used by the sketch

    [String::toUpperCase] maps [toupper] over the characters and
    [String::trim] drops leading and trailing [isspace] characters. *)

Module WString.

Definition isspace (c : ascii) : bool :=
  let n := Z.of_nat (nat_of_ascii c) in
  (n =? 32) || ((9 <=? n) && (n <=? 13)).

Definition toupper (c : ascii) : ascii :=
  let n := nat_of_ascii c in
  if ((97 <=? Z.of_nat n) && (Z.of_nat n <=? 122))%bool
  then ascii_of_nat (n - 32)%nat else c.

Fixpoint toUpperCase (s : string) : string :=
  match s with
  | EmptyString => EmptyString
  | String c s' => String (toupper c) (toUpperCase s')
  end.

Fixpoint skip_space (s : string) : string :=
  match s with
  | EmptyString => EmptyString
  | String c s' => if isspace c then skip_space s' else s
  end.

Fixpoint rev_onto (s acc : string) : string :=
  match s with
  | EmptyString => acc
  | String c s' => rev_onto s' (String c acc)
  end.

Definition rev (s : string) : string := rev_onto s EmptyString.

Definition trim (s : string) : string :=
  rev (skip_space (rev (skip_space s))).

(** [String(n)] for an integer: its decimal representation. *)
Definition ofZ (z : Z) : string := NilZero.string_of_int (Z.to_int z).

(** What [Stream::readStringUntil] returns and what it leaves in the
    receive buffer: the characters before the first terminator (which is
    consumed), or everything pending when no terminator arrives before the
    timeout. *)
Fixpoint split_at (t : ascii) (s : string) : string * string :=
  match s with
  | EmptyString => (EmptyString, EmptyString)
  | String c s' =>
      if Ascii.eqb c t then (EmptyString, s')
      else let (l, r) := split_at t s' in (String c l, r)
  end.

End WString.

(* ====================================================================== *)
(** ** The platform: events, history and faults *)

(** The two [Servo] objects of the sketch. *)
Inductive Channel : Type := servo1 | servo2.

Definition Channel_eqb (a b : Channel) : bool :=
  match a, b with
  | servo1, servo1 | servo2, servo2 => true
  | _, _ => false
  end.

(** One constructor per platform call the sketch makes. *)
Inductive Event : Type :=
| SerialBegin (baud : Z)
| SerialSetTimeout (ms : Z)
| SerialPrint (s : string)
| SerialPrintln (s : string)
| ServoAttach (servo : Channel) (pin : Z)
| ServoWrite (servo : Channel) (angle : Z)
| Delay (ms : Z)
| DigitalWrite (pin : Z) (high : bool).

(** What the sketch does not define: which hardware calls fail (the sketch
    guards them with [try]/[catch]), the clock, the free-memory probe and the
    board's LED pin.  Each may depend on everything that happened so far. *)
Record Platform : Type := mkPlatform {
  hw_fault : list Event -> Event -> bool;
  millis_at : list Event -> Z;
  freeMemory_at : list Event -> Z;
  LED_BUILTIN : Z
}.

(** The sketch's global variables (lines 44-55), the serial receive buffer
    and the history of platform calls, oldest first.  [inputBuffer] is only
    ever reserved and is left out. *)
Record Sys : Type := mkSys {
  rx : string;
  systemReady : bool;
  currentPosition1 : Z;
  currentPosition2 : Z;
  totalMoves : Z;
  leftMoves : Z;
  rightMoves : Z;
  startTime : Z;
  trace : list Event
}.

(** The globals as their initialisers leave them. *)
Definition boot (pending : string) : Sys :=
  mkSys pending false CENTER_POSITION SERVO2_IDLE 0 0 0 0 [].

Definition set_rx (v : string) (s : Sys) : Sys :=
  mkSys v (systemReady s) (currentPosition1 s) (currentPosition2 s)
        (totalMoves s) (leftMoves s) (rightMoves s) (startTime s) (trace s).
Definition set_systemReady (v : bool) (s : Sys) : Sys :=
  mkSys (rx s) v (currentPosition1 s) (currentPosition2 s)
        (totalMoves s) (leftMoves s) (rightMoves s) (startTime s) (trace s).
Definition set_currentPosition1 (v : Z) (s : Sys) : Sys :=
  mkSys (rx s) (systemReady s) v (currentPosition2 s)
        (totalMoves s) (leftMoves s) (rightMoves s) (startTime s) (trace s).
Definition set_currentPosition2 (v : Z) (s : Sys) : Sys :=
  mkSys (rx s) (systemReady s) (currentPosition1 s) v
        (totalMoves s) (leftMoves s) (rightMoves s) (startTime s) (trace s).
Definition set_totalMoves (v : Z) (s : Sys) : Sys :=
  mkSys (rx s) (systemReady s) (currentPosition1 s) (currentPosition2 s)
        v (leftMoves s) (rightMoves s) (startTime s) (trace s).
Definition set_leftMoves (v : Z) (s : Sys) : Sys :=
  mkSys (rx s) (systemReady s) (currentPosition1 s) (currentPosition2 s)
        (totalMoves s) v (rightMoves s) (startTime s) (trace s).
Definition set_rightMoves (v : Z) (s : Sys) : Sys :=
  mkSys (rx s) (systemReady s) (currentPosition1 s) (currentPosition2 s)
        (totalMoves s) (leftMoves s) v (startTime s) (trace s).
Definition set_startTime (v : Z) (s : Sys) : Sys :=
  mkSys (rx s) (systemReady s) (currentPosition1 s) (currentPosition2 s)
        (totalMoves s) (leftMoves s) (rightMoves s) v (trace s).

(** [s +++ evs]: the same globals, with [evs] appended to the history. *)
Definition record (s : Sys) (evs : list Event) : Sys :=
  mkSys (rx s) (systemReady s) (currentPosition1 s) (currentPosition2 s)
        (totalMoves s) (leftMoves s) (rightMoves s) (startTime s)
        (trace s ++ evs).

Notation "s +++ evs" := (record s evs) (at level 55, left associativity).

(* ====================================================================== *)
(** ** The monad of sketch code: global state and C++ exceptions *)

Inductive Res (A : Type) : Type :=
| Ok (a : A)
| Throw.
Arguments Ok {A} a.
Arguments Throw {A}.

Definition M (A : Type) : Type := Sys -> Res A * Sys.

Definition ret {A} (a : A) : M A := fun s => (Ok a, s).

Definition bind {A B} (m : M A) (k : A -> M B) : M B :=
  fun s =>
    match m s with
    | (Ok a, s') => k a s'
    | (Throw, s') => (Throw, s')
    end.

Notation "x <- m ;; k" := (bind m (fun x => k))
  (at level 61, m at next level, right associativity).
Notation "m ;; k" := (bind m (fun _ => k))
  (at level 61, right associativity).

(** [try { body } catch (...) { handler }]: what [body] changed before it
    threw stays changed. *)
Definition try_catch {A} (body handler : M A) : M A :=
  fun s =>
    match body s with
    | (Ok a, s') => (Ok a, s')
    | (Throw, s') => handler s'
    end.

Definition get {A} (f : Sys -> A) : M A := fun s => (Ok (f s), s).
Definition modify (f : Sys -> Sys) : M unit := fun s => (Ok tt, f s).
Definition when (b : bool) (m : M unit) : M unit := if b then m else ret tt.

(** [for (int i = 0; i < n; i++) body(i)]. *)
Fixpoint for_from (i : Z) (n : nat) (body : Z -> M unit) : M unit :=
  match n with
  | O => ret tt
  | S n' => body i ;; for_from (i + 1) n' body
  end.

Definition for_upto (n : Z) (body : Z -> M unit) : M unit :=
  for_from 0 (Z.to_nat n) body.

Definition inspect {A} (a : A) : {b : A | a = b} := exist _ a eq_refl.

(* ====================================================================== *)
(** ** The sketch *)

Section Sketch.

Variable P : Platform.

(** *** Platform calls *)

Definition emit (e : Event) : M unit := fun s => (Ok tt, s +++ [e]).

(** A call to the servo hardware: the platform may fail it, and then nothing
    is written. *)
Definition hw_call (e : Event) : M unit :=
  fun s => if hw_fault P (trace s) e then (Throw, s) else emit e s.

Definition Serial_begin (baud : Z) : M unit := emit (SerialBegin baud).
Definition Serial_setTimeout (ms : Z) : M unit := emit (SerialSetTimeout ms).
Definition Serial_print (s : string) : M unit := emit (SerialPrint s).
Definition Serial_println (s : string) : M unit := emit (SerialPrintln s).
Definition delay (ms : Z) : M unit := emit (Delay ms).
Definition digitalWrite (pin : Z) (high : bool) : M unit :=
  emit (DigitalWrite pin high).
Definition Servo_attach (servo : Channel) (pin : Z) : M unit :=
  hw_call (ServoAttach servo pin).
Definition Servo_write (servo : Channel) (angle : Z) : M unit :=
  hw_call (ServoWrite servo angle).

Definition millis : M Z := fun s => (Ok (ulong (millis_at P (trace s))), s).

Definition Serial_available : M Z :=
  fun s => (Ok (Z.of_nat (String.length (rx s))), s).

Definition Serial_readStringUntil (terminator : ascii) : M string :=
  fun s => let (line, rest) := WString.split_at terminator (rx s) in
           (Ok line, set_rx rest s).

(** *** moveServoSmoothly (lines 205-220) *)

(** [int step = (toPos > fromPos) ? 2 : -2;] *)
Definition step_of (fromPos toPos : Z) : Z :=
  if toPos >? fromPos then 2 else -2.

(** The loop condition [(step > 0 ? pos <= toPos : pos >= toPos)]. *)
Definition sweep_cond (step pos toPos : Z) : bool :=
  if step >? 0 then pos <=? toPos else pos >=? toPos.

(** How far the loop variable still is from leaving the loop. *)
Definition sweep_left (fromPos toPos pos : Z) : nat :=
  if step_of fromPos toPos >? 0
  then Z.to_nat (toPos - pos + 1) else Z.to_nat (pos - toPos + 1).

(** The [for] loop of lines 210-215, from the value [pos] of its variable. *)
Equations? sweep (servo : Channel) (fromPos toPos pos : Z) (s : Sys)
  : Res unit * Sys by wf (sweep_left fromPos toPos pos) lt :=
sweep servo fromPos toPos pos s
  with inspect (sweep_cond (step_of fromPos toPos) pos toPos) => {
  | exist _ false _ => (Ok tt, s)
  | exist _ true _ =>
      match (Servo_write servo pos ;; delay STEP_DELAY) s with
      | (Ok _, s') => sweep servo fromPos toPos (pos + step_of fromPos toPos) s'
      | (Throw, s') => (Throw, s')
      end }.
Proof.
  unfold sweep_left, sweep_cond, step_of in *.
  destruct (toPos >? fromPos); simpl in *; lia.
Qed.

Definition moveServoSmoothly (servo : Channel) (fromPos toPos : Z) : M unit :=
  if fromPos =? toPos then ret tt
  else
    sweep servo fromPos toPos fromPos ;;
    Servo_write servo toPos ;;
    delay MOVE_TIME.

(** *** initializeServos (lines 112-135) *)

Definition initializeServos : M bool :=
  Serial_println "Initializing servos..." ;;
  try_catch
    (Servo_attach servo1 SERVO1_PIN ;;
     Servo_attach servo2 SERVO2_PIN ;;
     delay 500 ;;
     Servo_write servo1 CENTER_POSITION ;;
     Servo_write servo2 SERVO2_IDLE ;;
     modify (set_currentPosition1 CENTER_POSITION) ;;
     modify (set_currentPosition2 SERVO2_IDLE) ;;
     delay 1000 ;;
     Serial_println "Both servos initialized and positioned" ;;
     ret true)
    (Serial_println "ERROR: Servo initialization failed" ;;
     ret false).

(** *** executeSortingMovement (lines 137-203) *)

(** The position chosen by lines 149-158, if any. *)
Definition target_of (direction : string) : option Z :=
  if String.eqb direction "LEFT" then Some LEFT_POSITION
  else if String.eqb direction "RIGHT" then Some RIGHT_POSITION
  else if String.eqb direction "CENTER" then Some CENTER_POSITION
  else None.

(** The guarded block of lines 163-198. *)
Definition movement_steps (direction : string) (targetPosition : Z) : M bool :=
  when (negb (String.eqb direction "CENTER"))
    (Servo_write servo2 SERVO2_ACTIVE ;;
     delay 200) ;;
  from <- get currentPosition1 ;;
  moveServoSmoothly servo1 from targetPosition ;;
  modify (set_currentPosition1 targetPosition) ;;
  delay HOLD_TIME ;;
  when (negb (targetPosition =? CENTER_POSITION))
    (Serial_println "Returning to center position" ;;
     from <- get currentPosition1 ;;
     moveServoSmoothly servo1 from CENTER_POSITION ;;
     modify (set_currentPosition1 CENTER_POSITION)) ;;
  Servo_write servo2 SERVO2_IDLE ;;
  modify (set_currentPosition2 SERVO2_IDLE) ;;
  modify (fun s => set_totalMoves (ulong_incr (totalMoves s)) s) ;;
  (if String.eqb direction "LEFT" then
     modify (fun s => set_leftMoves (ulong_incr (leftMoves s)) s)
   else if String.eqb direction "RIGHT" then
     modify (fun s => set_rightMoves (ulong_incr (rightMoves s)) s)
   else ret tt) ;;
  Serial_println "Sorting movement completed successfully" ;;
  ret true.

Definition executeSortingMovement (direction : string) : M bool :=
  ready <- get systemReady ;;
  if negb ready then
    Serial_println "ERROR: System not ready" ;;
    ret false
  else
    let direction := WString.trim (WString.toUpperCase direction) in
    match target_of direction with
    | None =>
        Serial_println ("ERROR: Invalid direction - " ++ direction) ;;
        ret false
    | Some targetPosition =>
        Serial_print "Executing sorting movement: " ;;
        Serial_println direction ;;
        try_catch
          (movement_steps direction targetPosition)
          (Serial_println "ERROR: Servo movement failed" ;;
           ret false)
    end.

(** *** printSystemStatus (lines 283-296) and freeMemory (lines 322-325) *)

Definition freeMemory : M Z := fun s => (Ok (freeMemory_at P (trace s)), s).

Definition printSystemStatus : M unit :=
  now <- millis ;;
  start <- get startTime ;;
  let uptime := ulong_sub now start in
  Serial_println "=== ARDUINO SYSTEM STATUS ===" ;;
  ready <- get systemReady ;;
  Serial_println ("System Ready: " ++ (if ready then "YES" else "NO")) ;;
  Serial_println ("Uptime: " ++ WString.ofZ (uptime / 1000) ++ " seconds") ;;
  total <- get totalMoves ;;
  Serial_println ("Total Movements: " ++ WString.ofZ total) ;;
  left <- get leftMoves ;;
  Serial_println ("Left Movements: " ++ WString.ofZ left) ;;
  right <- get rightMoves ;;
  Serial_println ("Right Movements: " ++ WString.ofZ right) ;;
  pos1 <- get currentPosition1 ;;
  Serial_println ("Servo 1 Position: " ++ WString.ofZ pos1) ;;
  pos2 <- get currentPosition2 ;;
  Serial_println ("Servo 2 Position: " ++ WString.ofZ pos2) ;;
  free <- freeMemory ;;
  Serial_println ("Free Memory: " ++ WString.ofZ free ++ " bytes") ;;
  Serial_println "============================".

(** *** runCompleteTest (lines 268-281) *)

Definition testSequence : list string :=
  ["CENTER"; "LEFT"; "CENTER"; "RIGHT"; "CENTER"].

Definition runCompleteTest : M unit :=
  Serial_println "Starting complete system test..." ;;
  for_upto 5 (fun i =>
    let name := nth (Z.to_nat i) testSequence "" in
    Serial_println ("Testing position: " ++ name) ;;
    _ <- executeSortingMovement name ;;
    delay 500) ;;
  Serial_println "Complete system test finished".

(** *** processCommand (lines 226-266) *)

Definition report_movement (name : string) : M unit :=
  ok <- executeSortingMovement name ;;
  if ok then Serial_println (name ++ " movement completed")
  else Serial_println ("ERROR: " ++ name ++ " movement failed").

Definition processCommand (command : string) : M unit :=
  let command := WString.trim (WString.toUpperCase command) in
  Serial_println ("Received command: " ++ command) ;;
  (if String.eqb command "LEFT" then report_movement "LEFT"
   else if String.eqb command "RIGHT" then report_movement "RIGHT"
   else if String.eqb command "CENTER" then report_movement "CENTER"
   else if String.eqb command "TEST" then runCompleteTest
   else if String.eqb command "STATUS" then printSystemStatus
   else
     Serial_println ("ERROR: Unknown command - " ++ command) ;;
     Serial_println "Valid commands: LEFT, RIGHT, CENTER, TEST, STATUS") ;;
  Serial_println "READY".

(** *** Start-up (lines 61-90 and 302-320) *)

Definition performStartupSequence : M unit :=
  for_upto 3 (fun _ =>
    digitalWrite (LED_BUILTIN P) true ;;
    delay 200 ;;
    digitalWrite (LED_BUILTIN P) false ;;
    delay 200).

Definition performErrorSequence : M unit :=
  for_upto 10 (fun _ =>
    digitalWrite (LED_BUILTIN P) true ;;
    delay 100 ;;
    digitalWrite (LED_BUILTIN P) false ;;
    delay 100).

Definition setup : M unit :=
  Serial_begin BAUD_RATE ;;
  Serial_setTimeout SERIAL_TIMEOUT ;;
  performStartupSequence ;;
  ok <- initializeServos ;;
  if ok then
    modify (set_systemReady true) ;;
    now <- millis ;;
    modify (set_startTime now) ;;
    Serial_println "============================================" ;;
    Serial_println "Arduino Dual Servo ML Sorting Controller" ;;
    Serial_println "Servo 1 (Pin 12): Primary sorting" ;;
    Serial_println "Servo 2 (Pin 13): Secondary control" ;;
    Serial_println "Commands: LEFT, RIGHT, CENTER, TEST, STATUS" ;;
    Serial_println "============================================" ;;
    Serial_println "System initialized successfully" ;;
    Serial_println "READY"
  else
    Serial_println "ERROR: Servo initialization failed!" ;;
    performErrorSequence.

(** *** The main loop (lines 96-106): one iteration *)

Definition newline : ascii := ascii_of_nat 10.

Definition loop : M unit :=
  available <- Serial_available ;;
  when (available >? 0)
    (command <- Serial_readStringUntil newline ;;
     processCommand (WString.trim command)) ;;
  delay 10.

End Sketch.

(* ====================================================================== *)
(** ** Observations on a history *)

(** The angles written to a servo, oldest first. *)
Fixpoint writes_to (servo : Channel) (tr : list Event) : list Z :=
  match tr with
  | [] => []
  | ServoWrite c a :: tr' =>
      if Channel_eqb c servo then a :: writes_to servo tr'
      else writes_to servo tr'
  | _ :: tr' => writes_to servo tr'
  end.

(** A channel's commanded angle: the last angle written to it, if any. *)
Definition commandedAngle (servo : Channel) (tr : list Event) : option Z :=
  last (map Some (writes_to servo tr)) None.

(** All servo writes of a history. *)
Fixpoint hardware_writes (tr : list Event) : list (Channel * Z) :=
  match tr with
  | [] => []
  | ServoWrite c a :: tr' => (c, a) :: hardware_writes tr'
  | _ :: tr' => hardware_writes tr'
  end.

(** The text sent over the serial link, as complete lines: [print] extends
    the line being written, [println] ends it. *)
Fixpoint serial_lines_from (pending : string) (tr : list Event) : list string :=
  match tr with
  | [] => []
  | SerialPrint t :: tr' => serial_lines_from (pending ++ t)%string tr'
  | SerialPrintln t :: tr' => (pending ++ t)%string :: serial_lines_from "" tr'
  | _ :: tr' => serial_lines_from pending tr'
  end.

Definition serial_lines (tr : list Event) : list string :=
  serial_lines_from "" tr.

(** The line left unfinished at the end of a history. *)
Fixpoint pending_after (pending : string) (tr : list Event) : string :=
  match tr with
  | [] => pending
  | SerialPrint t :: tr' => pending_after (pending ++ t)%string tr'
  | SerialPrintln t :: tr' => pending_after "" tr'
  | _ :: tr' => pending_after pending tr'
  end.

(** A platform on which no hardware call ever fails. *)
Definition fault_free (P : Platform) : Prop :=
  forall h e, hw_fault P h e = false.

(** A fault-free board whose clock counts the milliseconds spent in
    [delay]. *)
Definition elapsed (tr : list Event) : Z :=
  fold_right (fun e t => match e with Delay ms => ms + t | _ => t end) 0 tr.

Definition quiet : Platform :=
  mkPlatform (fun _ _ => false) elapsed (fun _ => 1500) 13.

(** What one call of [moveServoSmoothly] may send to the platform. *)
Definition motion_event (servo : Channel) (lo hi : Z) (e : Event) : Prop :=
  e = Delay STEP_DELAY \/ e = Delay MOVE_TIME \/
  exists a, e = ServoWrite servo a /\ lo <= a <= hi.


(** The direction or command token after [toUpperCase] and [trim]. *)
Definition normalize (s : string) : string :=
  WString.trim (WString.toUpperCase s).

(** What the guarded part of [executeSortingMovement] and its handler may
    send to the platform. *)
Definition movement_event (e : Event) : Prop :=
  (exists servo a, e = ServoWrite servo a) \/
  (exists ms, e = Delay ms /\ In ms [200; STEP_DELAY; MOVE_TIME; HOLD_TIME]) \/
  (exists t, e = SerialPrintln t /\
             In t ["Returning to center position";
                   "Sorting movement completed successfully";
                   "ERROR: Servo movement failed"]).

(** The globals after a movement in direction [dir] (already normalised)
    that ran to completion. *)
Definition completed (dir : string) (s : Sys) : Sys :=
  mkSys (rx s) (systemReady s) CENTER_POSITION SERVO2_IDLE
        (ulong_incr (totalMoves s))
        (if String.eqb dir "LEFT" then ulong_incr (leftMoves s) else leftMoves s)
        (if String.eqb dir "RIGHT" then ulong_incr (rightMoves s) else rightMoves s)
        (startTime s) (trace s).

(** What one call of [executeSortingMovement] may send to the platform. *)
Definition invocation_events (evs : list Event) : Prop :=
  evs = [SerialPrintln "ERROR: System not ready"] \/
  (exists dir, evs = [SerialPrintln ("ERROR: Invalid direction - " ++ dir)]) \/
  (exists dir body,
      In dir ["LEFT"; "RIGHT"; "CENTER"] /\
      evs = SerialPrint "Executing sorting movement: "
              :: SerialPrintln dir :: body /\
      Forall movement_event body).

(** The three statistics counters. *)
Definition counters (s : Sys) : Z * Z * Z :=
  (totalMoves s, leftMoves s, rightMoves s).

(** A sequence of calls to [executeSortingMovement], one after the other:
    what each returned, and the state at the end. *)
Fixpoint run_movements (P : Platform) (ds : list string) (s : Sys)
  : list (Res bool) * Sys :=
  match ds with
  | [] => ([], s)
  | d :: ds' =>
      let (r, s1) := executeSortingMovement P d s in
      let (rs, s2) := run_movements P ds' s1 in
      (r :: rs, s2)
  end.

(** How many calls of a sequence ask for a given direction. *)
Definition calls_for (dir : string) (ds : list string) : Z :=
  Z.of_nat (count_occ string_dec ds dir).

(** The board after a start-up without faults, with [pending] waiting in
    the serial receive buffer. *)
Definition started (pending : string) : Sys := snd (setup quiet (boot pending)).

(** As many CENTER requests as an [unsigned long] has values. *)
Definition centers_until_wrap : list string :=
  repeat "CENTER" (Z.to_nat ULONG_MODULUS).

(** The normalised directions of the calls of a sequence that returned
    [true]. *)
Fixpoint successful (ds : list string) (rs : list (Res bool)) : list string :=
  match ds, rs with
  | d :: ds', Ok true :: rs' => normalize d :: successful ds' rs'
  | _ :: ds', _ :: rs' => successful ds' rs'
  | _, _ => []
  end.

(** A counter went from [c] to [c'] by not moving or by one [++]. *)
Definition kept_or_incremented (c c' : Z) : Prop :=
  c' = c \/ c' = ulong_incr c.

(** One step of a counter: it stays or takes one [++], and short of the
    largest [unsigned long] it does not go down. *)
Definition counter_step (c c' : Z) : Prop :=
  kept_or_incremented c c' /\ (0 <= c < ULONG_MODULUS - 1 -> c <= c').

(** The events by which a history shows the TEST sequence itself: the
    line announcing each position and the 500 ms pause after it.  A call of
    [executeSortingMovement] produces neither. *)
Definition is_test_marker (e : Event) : bool :=
  match e with
  | Delay ms => ms =? 500
  | SerialPrintln t => String.prefix "Testing position: " t
  | _ => false
  end.

(** The diagnostic sequence as the specification words it: the five
    positions CENTER, LEFT, CENTER, RIGHT, CENTER, each announced, run
    through [executeSortingMovement] whatever it returns, and followed by the
    fixed pause. *)
Definition test_step (P : Platform) (dir : string) : M unit :=
  Serial_println ("Testing position: " ++ dir) ;;
  _ <- executeSortingMovement P dir ;;
  delay 500.

Definition test_script (P : Platform) : M unit :=
  Serial_println "Starting complete system test..." ;;
  test_step P "CENTER" ;;
  test_step P "LEFT" ;;
  test_step P "CENTER" ;;
  test_step P "RIGHT" ;;
  test_step P "CENTER" ;;
  Serial_println "Complete system test finished".

(** What the serial link and the clock see of one rejected test step. *)
Definition rejected_test_step (dir : string) : list Event :=
  [SerialPrintln ("Testing position: " ++ dir);
   SerialPrintln "ERROR: System not ready";
   Delay 500].

(** A history that ends by finishing a line. *)
Definition ends_line (evs : list Event) : Prop :=
  exists pre t, evs = pre ++ [SerialPrintln t].

(** Sketch code that returns normally and whose last platform call
    finishes a line of serial output. *)
Definition finishes_line (m : M unit) : Prop :=
  forall s, exists s' evs,
    m s = (Ok tt, s') /\ trace s' = trace s ++ evs /\ ends_line evs.

(* ====================================================================== *)
(** ** Closed forms of the motions *)

(** [n] angles from [pos] on, [step] apart. *)
Fixpoint ramp (pos step : Z) (n : nat) : list Z :=
  match n with
  | O => []
  | S n' => pos :: ramp (pos + step) step n'
  end.

(** How many times the loop of [moveServoSmoothly] still runs when its
    variable is [pos]. *)
Definition sweep_count (fromPos toPos pos : Z) : nat :=
  if sweep_cond (step_of fromPos toPos) pos toPos
  then Z.to_nat (Z.abs (toPos - pos) / 2 + 1) else 0.

(** A stepped write and its pause, for each angle of a ramp. *)
Definition ramp_events (servo : Channel) (pos step : Z) (n : nat) : list Event :=
  flat_map (fun x => [ServoWrite servo x; Delay STEP_DELAY]) (ramp pos step n).

(** Everything an unfailed [moveServoSmoothly] sends to the platform. *)
Definition motion_script (servo : Channel) (fromPos toPos : Z) : list Event :=
  if fromPos =? toPos then []
  else ramp_events servo fromPos (step_of fromPos toPos)
                   (sweep_count fromPos toPos fromPos)
       ++ [ServoWrite servo toPos; Delay MOVE_TIME].

(** A run stopped by a hardware fault did a part of [script] and stopped in
    front of a hardware call; an unfailed run did all of it. *)
Definition ran_until {A} (r : Res A) (script evs : list Event) : Prop :=
  exists rest,
    script = evs ++ rest /\
    match r with
    | Ok _ => rest = []
    | Throw => exists c x rest', rest = ServoWrite c x :: rest'
    end.

(** Everything the guarded block of [executeSortingMovement] sends to the
    platform when no hardware call fails, for a normalised direction, its
    target and the tracked angle the primary servo starts from. *)
Definition choreography (dir : string) (targetPosition from : Z) : list Event :=
  (if String.eqb dir "CENTER" then []
   else [ServoWrite servo2 SERVO2_ACTIVE; Delay 200])
  ++ motion_script servo1 from targetPosition
  ++ [Delay HOLD_TIME]
  ++ (if targetPosition =? CENTER_POSITION then []
      else SerialPrintln "Returning to center position"
             :: motion_script servo1 targetPosition CENTER_POSITION)
  ++ [ServoWrite servo2 SERVO2_IDLE;
      SerialPrintln "Sorting movement completed successfully"].

(** The two lines printed before the guarded block. *)
Definition announcement (dir : string) : list Event :=
  [SerialPrint "Executing sorting movement: "; SerialPrintln dir].

(** The time [moveServoSmoothly] spends in [delay], in milliseconds: one
    step delay for each angle of the ramp and the settle delay. *)
Definition motion_time (fromPos toPos : Z) : Z :=
  if fromPos =? toPos then 0
  else STEP_DELAY * (Z.abs (toPos - fromPos) / 2 + 1) + MOVE_TIME.

(** The time a completed [executeSortingMovement] spends in [delay]. *)
Definition choreography_time (dir : string) (targetPosition from : Z) : Z :=
  (if String.eqb dir "CENTER" then 0 else 200)
  + motion_time from targetPosition
  + HOLD_TIME
  + (if targetPosition =? CENTER_POSITION then 0
     else motion_time targetPosition CENTER_POSITION).

(* ====================================================================== *)
(** ** Start-up in closed form *)

(** One blink of the built-in LED, [ms] on and [ms] off. *)
Definition blink (led ms : Z) : list Event :=
  [DigitalWrite led true; Delay ms; DigitalWrite led false; Delay ms].

Definition startup_blinks (led : Z) : list Event :=
  concat (repeat (blink led 200) 3).

Definition error_blinks (led : Z) : list Event :=
  concat (repeat (blink led 100) 10).

(** What [initializeServos] does after its first line when no hardware
    call fails. *)
Definition init_script : list Event :=
  [ServoAttach servo1 SERVO1_PIN; ServoAttach servo2 SERVO2_PIN; Delay 500;
   ServoWrite servo1 CENTER_POSITION; ServoWrite servo2 SERVO2_IDLE;
   Delay 1000; SerialPrintln "Both servos initialized and positioned"].

(** The parts of [init_script] that can have been done when a hardware
    call fails: everything in front of one of the four hardware calls. *)
Definition init_stops : list (list Event) :=
  [firstn 0 init_script; firstn 1 init_script;
   firstn 3 init_script; firstn 4 init_script].

(** What a failed [initializeServos] has sent to the platform. *)
Definition init_failures : list (list Event) :=
  map (fun done =>
         SerialPrintln "Initializing servos..." :: done
           ++ [SerialPrintln "ERROR: Servo initialization failed"])
      init_stops.

Definition banner : list Event :=
  [SerialPrintln "============================================";
   SerialPrintln "Arduino Dual Servo ML Sorting Controller";
   SerialPrintln "Servo 1 (Pin 12): Primary sorting";
   SerialPrintln "Servo 2 (Pin 13): Secondary control";
   SerialPrintln "Commands: LEFT, RIGHT, CENTER, TEST, STATUS";
   SerialPrintln "============================================";
   SerialPrintln "System initialized successfully";
   SerialPrintln "READY"].

(* ====================================================================== *)
(** ** What every run of the firmware keeps *)

(** The writes the sketch means to make: the primary servo within its
    range, the secondary servo at its active or idle angle. *)
Definition safe_write (w : Channel * Z) : Prop :=
  match w with
  | (servo1, a) => 0 <= a <= 180
  | (servo2, a) => a = SERVO2_ACTIVE \/ a = SERVO2_IDLE
  end.

(** The tracked angles are among the positions the sketch knows. *)
Definition tracked_ok (s : Sys) : Prop :=
  In (currentPosition1 s) [LEFT_POSITION; CENTER_POSITION; RIGHT_POSITION] /\
  currentPosition2 s = SERVO2_IDLE.

(** A piece of a run from [s] to [s']: readiness and start time are kept;
    known tracked angles stay known and then every servo write is a safe
    one; and while the system is not ready no servo is written and no
    statistic or tracked angle changes. *)
Definition safe_step (s s' : Sys) : Prop :=
  systemReady s' = systemReady s /\
  startTime s' = startTime s /\
  (tracked_ok s -> tracked_ok s') /\
  exists evs,
    trace s' = trace s ++ evs /\
    (tracked_ok s -> Forall safe_write (hardware_writes evs)) /\
    (systemReady s = false ->
     hardware_writes evs = [] /\
     counters s' = counters s /\
     currentPosition1 s' = currentPosition1 s /\
     currentPosition2 s' = currentPosition2 s).

(** Sketch code that returns normally from every state, by a safe step. *)
Definition safe_code {A} (m : M A) : Prop :=
  forall s, exists a s', m s = (Ok a, s') /\ safe_step s s'.

(** [n] iterations of the main loop. *)
Fixpoint run_loop (P : Platform) (n : nat) (s : Sys) : Sys :=
  match n with
  | O => s
  | S n' => run_loop P n' (snd (loop P s))
  end.

(** The firmware from power-up: [setup], then [n] iterations of [loop],
    with [pending] in the serial receive buffer. *)
Definition firmware (P : Platform) (pending : string) (n : nat) : Sys :=
  run_loop P n (snd (setup P (boot pending))).

(** The ten lines of a status report, for the globals of [s], an uptime in
    milliseconds and a free-memory figure. *)
Definition status_lines (s : Sys) (uptime free : Z) : list string :=
  ["=== ARDUINO SYSTEM STATUS ===";
   "System Ready: " ++ (if systemReady s then "YES" else "NO");
   "Uptime: " ++ WString.ofZ (uptime / 1000) ++ " seconds";
   "Total Movements: " ++ WString.ofZ (totalMoves s);
   "Left Movements: " ++ WString.ofZ (leftMoves s);
   "Right Movements: " ++ WString.ofZ (rightMoves s);
   "Servo 1 Position: " ++ WString.ofZ (currentPosition1 s);
   "Servo 2 Position: " ++ WString.ofZ (currentPosition2 s);
   "Free Memory: " ++ WString.ofZ free ++ " bytes";
   "============================"]%string.

(** The five tokens [processCommand] knows. *)
Definition known_commands : list string :=
  ["LEFT"; "RIGHT"; "CENTER"; "TEST"; "STATUS"].

(** A string without the character [c]. *)
Fixpoint lacks (c : ascii) (s : string) : Prop :=
  match s with
  | EmptyString => True
  | String a s' => a <> c /\ lacks c s'
  end.

(** Sketch code that returns normally and leaves the serial receive buffer
    alone. *)
Definition keeps_rx {A} (m : M A) : Prop :=
  forall s, exists a s', m s = (Ok a, s') /\ rx s' = rx s.

(** A string that is empty or begins with a character that is no space. *)
Definition head_ok (s : string) : Prop :=
  match s with
  | EmptyString => True
  | String c _ => WString.isspace c = false
  end.

(** Two boards with a hardware fault: one fails every write of 50 degrees
    to the primary servo, the other fails to attach the secondary servo. *)
Definition jammed : Platform :=
  mkPlatform
    (fun _ e => match e with
                | ServoWrite servo1 50 => true
                | _ => false
                end)
    elapsed (fun _ => 1500) 13.

Definition unplugged : Platform :=
  mkPlatform
    (fun _ e => match e with
                | ServoAttach servo2 _ => true
                | _ => false
                end)
    elapsed (fun _ => 1500) 13.
(* ====================================================================== *)
(** ** Basic facts about states and histories *)

Lemma record_nil s : s +++ [] = s.
Proof. destruct s; unfold record; simpl. now rewrite app_nil_r. Qed.

Lemma record_record s a b : s +++ a +++ b = s +++ (a ++ b).
Proof. unfold record; simpl. now rewrite app_assoc. Qed.

Lemma trace_record s a : trace (s +++ a) = trace s ++ a.
Proof. reflexivity. Qed.

Lemma writes_to_app servo a b :
  writes_to servo (a ++ b) = writes_to servo a ++ writes_to servo b.
Proof.
  induction a as [|e a IH]; simpl; [reflexivity|].
  destruct e; auto. destruct (Channel_eqb servo0 servo); simpl; now rewrite IH.
Qed.

Lemma hardware_writes_app a b :
  hardware_writes (a ++ b) = hardware_writes a ++ hardware_writes b.
Proof.
  induction a as [|e a IH]; simpl; [reflexivity|].
  destruct e; auto. simpl. now rewrite IH.
Qed.

Lemma Channel_eqb_refl c : Channel_eqb c c = true.
Proof. now destruct c. Qed.

Lemma commandedAngle_snoc_write servo tr a tl :
  writes_to servo tl = [] ->
  commandedAngle servo (tr ++ ServoWrite servo a :: tl) = Some a.
Proof.
  intros Htl. unfold commandedAngle.
  rewrite writes_to_app. simpl. rewrite Channel_eqb_refl, Htl.
  rewrite map_app. simpl. now rewrite last_last.
Qed.

(* ====================================================================== *)
(** ** The smooth-motion primitive *)

Section Motion.

Variable P : Platform.

Lemma sweep_step servo fromPos toPos pos s :
  sweep P servo fromPos toPos pos s =
  if sweep_cond (step_of fromPos toPos) pos toPos then
    match (Servo_write P servo pos ;; delay STEP_DELAY) s with
    | (Ok _, s') => sweep P servo fromPos toPos (pos + step_of fromPos toPos) s'
    | (Throw, s') => (Throw, s')
    end
  else (Ok tt, s).
Proof.
  rewrite sweep_equation_1. unfold sweep_clause_1.
  destruct (inspect _) as [[] e]; simpl; rewrite e; reflexivity.
Qed.

Lemma sweep_spec servo fromPos toPos :
  forall pos s,
    (if step_of fromPos toPos >? 0 then fromPos <= pos else pos <= fromPos) ->
    exists evs,
      snd (sweep P servo fromPos toPos pos s) = s +++ evs /\
      Forall (motion_event servo (Z.min fromPos toPos) (Z.max fromPos toPos)) evs /\
      (fault_free P -> fst (sweep P servo fromPos toPos pos s) = Ok tt).
Proof.
  intros pos.
  remember (sweep_left fromPos toPos pos) as n eqn:Hn.
  revert pos Hn.
  induction n as [n IH] using lt_wf_ind.
  intros pos Hn s Hdir.
  rewrite sweep_step.
  destruct (sweep_cond (step_of fromPos toPos) pos toPos) eqn:Hc.
  - unfold bind, Servo_write, hw_call, delay, emit.
    destruct (hw_fault P (trace s) (ServoWrite servo pos)) eqn:Hf.
    + exists []. rewrite record_nil. repeat split; auto.
      intros Hff. now rewrite Hff in Hf.
    + rewrite record_record. simpl app.
      destruct (IH (sweep_left fromPos toPos (pos + step_of fromPos toPos)))
        with (pos := pos + step_of fromPos toPos)
             (s := s +++ [ServoWrite servo pos; Delay STEP_DELAY])
        as (evs & Hs & Hall & Hok).
      * subst n. unfold sweep_left, sweep_cond, step_of in *.
        destruct (toPos >? fromPos); simpl in *; lia.
      * reflexivity.
      * unfold step_of in *. destruct (toPos >? fromPos); simpl in *; lia.
      * exists ([ServoWrite servo pos; Delay STEP_DELAY] ++ evs).
        rewrite Hs, record_record. repeat split; auto.
        constructor; [|constructor; [|exact Hall]].
        -- right; right. exists pos. split; [reflexivity|].
           unfold sweep_cond, step_of in *.
           destruct (toPos >? fromPos) eqn:Hgt; simpl in *; lia.
        -- now left.
  - exists []. rewrite record_nil. repeat split; auto.
Qed.

Lemma moveServoSmoothly_spec servo fromPos toPos s :
  exists evs,
    snd (moveServoSmoothly P servo fromPos toPos s) = s +++ evs /\
    Forall (motion_event servo (Z.min fromPos toPos) (Z.max fromPos toPos)) evs /\
    (fault_free P -> fst (moveServoSmoothly P servo fromPos toPos s) = Ok tt) /\
    (fst (moveServoSmoothly P servo fromPos toPos s) = Ok tt ->
     fromPos <> toPos ->
     exists pre, evs = pre ++ [ServoWrite servo toPos; Delay MOVE_TIME]).
Proof.
  unfold moveServoSmoothly.
  destruct (fromPos =? toPos) eqn:Heq.
  - exists []. rewrite record_nil. apply Z.eqb_eq in Heq.
    repeat split; auto. intros _ Hne. contradiction.
  - destruct (sweep_spec servo fromPos toPos fromPos s) as (evs & Hs & Hall & Hok).
    { destruct (step_of fromPos toPos >? 0); lia. }
    unfold bind.
    destruct (sweep P servo fromPos toPos fromPos s) as [[[]|] s1] eqn:Hsw;
      simpl in Hs; subst s1.
    + unfold Servo_write, hw_call, delay, emit.
      destruct (hw_fault P (trace (s +++ evs)) (ServoWrite servo toPos)) eqn:Hf.
      * exists evs. repeat split; auto.
        -- intros Hff. now rewrite Hff in Hf.
        -- discriminate.
      * exists (evs ++ [ServoWrite servo toPos; Delay MOVE_TIME]).
        rewrite !record_record. simpl app. repeat split; auto.
        -- apply Forall_app. split; [exact Hall|].
           constructor; [|constructor; [|constructor]].
           ++ right; right. exists toPos. split; [reflexivity|lia].
           ++ right; now left.
        -- intros _ _. now exists evs.
    + exists evs. repeat split; auto. discriminate.
Qed.

Lemma motion_event_writes servo lo hi evs :
  Forall (motion_event servo lo hi) evs ->
  forall c x, In (c, x) (hardware_writes evs) -> c = servo /\ lo <= x <= hi.
Proof.
  induction 1 as [|e evs He _ IH]; simpl; [contradiction|].
  intros c x Hin.
  destruct He as [->|[->|(a & -> & Ha)]]; simpl in Hin; auto.
  destruct Hin as [Heq|Hin]; auto.
  inversion Heq; subst. auto.
Qed.

Lemma moveServoSmoothly_same servo a s :
  moveServoSmoothly P servo a a s = (Ok tt, s).
Proof. unfold moveServoSmoothly. now rewrite Z.eqb_refl. Qed.

(** C9.  When the start and target angles are equal, [moveServoSmoothly]
    returns at once: the whole state, history included, is what it was, so
    the call makes no hardware write and no delay. *)
Theorem moveServoSmoothly_noop_on_equal_angles servo a s :
  moveServoSmoothly P servo a a s = (Ok tt, s) /\
  trace (snd (moveServoSmoothly P servo a a s)) = trace s /\
  hardware_writes (trace (snd (moveServoSmoothly P servo a a s))) =
  hardware_writes (trace s).
Proof.
  rewrite moveServoSmoothly_same. auto.
Qed.

(** C10.  For end points in [0,180], whatever [moveServoSmoothly] writes
    (stepped writes and the final write alike, also when the platform fails
    the call half-way) goes to the servo it was given and lies between the
    two end points, hence in [0,180]. *)
Theorem moveServoSmoothly_writes_within_endpoints servo fromPos toPos s :
  0 <= fromPos <= 180 ->
  0 <= toPos <= 180 ->
  exists evs,
    snd (moveServoSmoothly P servo fromPos toPos s) = s +++ evs /\
    forall c x,
      In (c, x) (hardware_writes evs) ->
      c = servo /\
      Z.min fromPos toPos <= x <= Z.max fromPos toPos /\
      0 <= x <= 180.
Proof.
  intros Ha Hb.
  destruct (moveServoSmoothly_spec servo fromPos toPos s) as (evs & Hs & Hall & _).
  exists evs. split; [exact Hs|].
  intros c x Hin.
  destruct (motion_event_writes _ _ _ _ Hall c x Hin) as [-> Hx].
  repeat split; lia.
Qed.

(** C1 (amended).  For end points in [0,180] that differ, a call the
    platform does not fail returns, its last hardware write is exactly the
    target angle (followed only by the settle delay), and the channel's
    commanded angle is the target.  When the end points are equal nothing
    is written and the commanded angle stays what it was.  So the call ends
    at the target whenever the channel was commanded to the start angle. *)
Theorem moveServoSmoothly_final_write servo a b s :
  0 <= a <= 180 ->
  0 <= b <= 180 ->
  (fault_free P -> fst (moveServoSmoothly P servo a b s) = Ok tt) /\
  (a <> b ->
   fst (moveServoSmoothly P servo a b s) = Ok tt ->
   (exists pre,
       snd (moveServoSmoothly P servo a b s) =
       s +++ (pre ++ [ServoWrite servo b; Delay MOVE_TIME])) /\
   commandedAngle servo (trace (snd (moveServoSmoothly P servo a b s))) = Some b) /\
  (a = b ->
   commandedAngle servo (trace (snd (moveServoSmoothly P servo a b s))) =
   commandedAngle servo (trace s)) /\
  (commandedAngle servo (trace s) = Some a ->
   fst (moveServoSmoothly P servo a b s) = Ok tt ->
   commandedAngle servo (trace (snd (moveServoSmoothly P servo a b s))) = Some b).
Proof.
  intros _ _.
  destruct (moveServoSmoothly_spec servo a b s) as (evs & Hs & Hall & Hff & Hlast).
  assert (Hne : a <> b ->
                fst (moveServoSmoothly P servo a b s) = Ok tt ->
                (exists pre,
                    snd (moveServoSmoothly P servo a b s) =
                    s +++ (pre ++ [ServoWrite servo b; Delay MOVE_TIME])) /\
                commandedAngle servo
                  (trace (snd (moveServoSmoothly P servo a b s))) = Some b).
  { intros Hab Hok. destruct (Hlast Hok Hab) as [pre ->].
    rewrite Hs. split; [now exists pre|].
    rewrite trace_record, app_assoc.
    now apply commandedAngle_snoc_write. }
  assert (Heq : a = b ->
                commandedAngle servo
                  (trace (snd (moveServoSmoothly P servo a b s))) =
                commandedAngle servo (trace s)).
  { intros <-. now rewrite moveServoSmoothly_same. }
  repeat split; auto.
  - now apply Hne.
  - now apply Hne.
  - intros Hcur Hok. destruct (Z.eq_dec a b) as [E|E].
    + rewrite (Heq E), Hcur. now subst.
    + now apply Hne.
Qed.

End Motion.

(* ====================================================================== *)
(** ** The sorting choreography *)

Section Choreography.

Variable P : Platform.

Lemma target_of_cases dir t :
  target_of dir = Some t ->
  (dir = "LEFT" /\ t = LEFT_POSITION) \/
  (dir = "RIGHT" /\ t = RIGHT_POSITION) \/
  (dir = "CENTER" /\ t = CENTER_POSITION).
Proof.
  unfold target_of.
  destruct (String.eqb dir "LEFT") eqn:E1.
  { apply String.eqb_eq in E1. intros [= <-]. auto. }
  destruct (String.eqb dir "RIGHT") eqn:E2.
  { apply String.eqb_eq in E2. intros [= <-]. auto. }
  destruct (String.eqb dir "CENTER") eqn:E3.
  { apply String.eqb_eq in E3. intros [= <-]. auto. }
  discriminate.
Qed.

Lemma target_of_none dir :
  target_of dir = None <-> ~ In dir ["LEFT"; "RIGHT"; "CENTER"].
Proof.
  unfold target_of. simpl.
  destruct (String.eqb dir "LEFT") eqn:E1.
  { apply String.eqb_eq in E1. split; [discriminate|]. intros H. exfalso. auto. }
  destruct (String.eqb dir "RIGHT") eqn:E2.
  { apply String.eqb_eq in E2. split; [discriminate|]. intros H. exfalso. auto. }
  destruct (String.eqb dir "CENTER") eqn:E3.
  { apply String.eqb_eq in E3. split; [discriminate|]. intros H. exfalso. auto. }
  apply String.eqb_neq in E1, E2, E3.
  split; [|reflexivity]. intros _ [H|[H|[H|[]]]]; congruence.
Qed.

Lemma executeSortingMovement_not_ready d s :
  systemReady s = false ->
  executeSortingMovement P d s =
  (Ok false, s +++ [SerialPrintln "ERROR: System not ready"]).
Proof.
  intros Hr. unfold executeSortingMovement, bind, get. rewrite Hr. reflexivity.
Qed.

Lemma executeSortingMovement_invalid d s :
  systemReady s = true ->
  target_of (normalize d) = None ->
  executeSortingMovement P d s =
  (Ok false,
   s +++ [SerialPrintln ("ERROR: Invalid direction - " ++ normalize d)]).
Proof.
  intros Hr Ht. unfold executeSortingMovement, bind, get. rewrite Hr. simpl.
  unfold normalize in Ht. rewrite Ht. reflexivity.
Qed.

Lemma motion_is_movement servo lo hi evs :
  Forall (motion_event servo lo hi) evs -> Forall movement_event evs.
Proof.
  apply Forall_impl. intros e [->|[->|(a & -> & _)]].
  - right; left. exists STEP_DELAY. simpl; auto.
  - right; left. exists MOVE_TIME. simpl; auto.
  - left. eauto.
Qed.

#[local] Arguments moveServoSmoothly : simpl never.

Ltac head_scrutinee t :=
  lazymatch t with
  | match ?x with _ => _ end => head_scrutinee x
  | _ => t
  end.

(** One step of symbolic execution of sketch code in [H : code s = _]. *)
Ltac exec_step H :=
  lazymatch type of H with
  | ?lhs = _ =>
      let x := head_scrutinee lhs in
      lazymatch x with
      | hw_fault _ _ _ => destruct x eqn:?
      | moveServoSmoothly ?Q ?c ?a ?b ?s =>
          let evs := fresh "evs" in
          let Hs := fresh "Hs" in
          let Hall := fresh "Hall" in
          let Hok := fresh "Hok" in
          destruct (moveServoSmoothly_spec Q c a b s) as (evs & Hs & Hall & Hok & _);
          apply motion_is_movement in Hall;
          destruct x as [[[]|] ?]; cbn [fst snd] in Hs, Hok; subst
      end; cbn beta iota in H
  end.

Ltac movement_event_tac :=
  first
    [ left; do 2 eexists; reflexivity
    | right; left; eexists; split; [reflexivity | simpl; tauto]
    | right; right; eexists; split; [reflexivity | simpl; tauto] ].

Ltac movement_events_tac :=
  repeat first
    [ assumption
    | apply Forall_nil
    | apply Forall_cons; [movement_event_tac|]
    | apply Forall_app; split ].

Ltac same_state :=
  lazy beta iota zeta delta
    [completed record set_rx set_systemReady set_currentPosition1
     set_currentPosition2 set_totalMoves set_leftMoves set_rightMoves
     set_startTime rx systemReady currentPosition1 currentPosition2
     totalMoves leftMoves rightMoves startTime trace];
  f_equal; try reflexivity;
  rewrite <- ?app_assoc; try reflexivity;
  symmetry; apply app_nil_r.

Ltac no_fault Hff :=
  first
    [ reflexivity
    | match goal with
      | Hf : hw_fault _ _ _ = true |- _ => rewrite Hff in Hf; discriminate Hf
      | Hok : fault_free _ -> Throw = Ok _ |- _ => discriminate (Hok Hff)
      end ].

Lemma movement_steps_spec dir t s r s' :
  (dir = "LEFT" /\ t = LEFT_POSITION) \/
  (dir = "RIGHT" /\ t = RIGHT_POSITION) \/
  (dir = "CENTER" /\ t = CENTER_POSITION) ->
  movement_steps P dir t s = (r, s') ->
  exists body,
    Forall movement_event body /\
    ((r = Ok true /\ s' = completed dir s +++ body) \/
     (r = Throw /\ exists p1, s' = set_currentPosition1 p1 s +++ body)) /\
    (fault_free P -> r = Ok true).
Proof.
  intros Hd H.
  unfold movement_steps, bind, when, Servo_write, hw_call, delay, emit, get,
    modify, ret, Serial_println in H.
  destruct Hd as [[-> ->]|[[-> ->]|[-> ->]]]; cbn in H;
    repeat exec_step H;
    injection H as <- <-; destruct s;
    (eexists; (split; [|split]);
     [ | first [ left; split; [reflexivity | same_state]
               | right; split; [reflexivity | eexists; same_state] ]
       | let Hff := fresh "Hff" in intros Hff; no_fault Hff ];
     movement_events_tac).
Qed.

Lemma target_of_In dir t :
  target_of dir = Some t -> In dir ["LEFT"; "RIGHT"; "CENTER"].
Proof.
  intros H. apply target_of_cases in H. simpl.
  destruct H as [[-> _]|[[-> _]|[-> _]]]; auto.
Qed.

Lemma executeSortingMovement_ready d s t :
  systemReady s = true ->
  target_of (normalize d) = Some t ->
  executeSortingMovement P d s =
  try_catch (movement_steps P (normalize d) t)
            (Serial_println "ERROR: Servo movement failed" ;; ret false)
            (s +++ [SerialPrint "Executing sorting movement: ";
                    SerialPrintln (normalize d)]).
Proof.
  intros Hr Ht.
  unfold executeSortingMovement, bind at 1, get at 1. rewrite Hr.
  cbn [negb]. fold (normalize d). rewrite Ht.
  unfold bind at 1, Serial_print at 1, emit at 1.
  unfold bind at 1, Serial_println at 1, emit at 1.
  now rewrite record_record.
Qed.

Lemma executeSortingMovement_valid d s t :
  systemReady s = true ->
  target_of (normalize d) = Some t ->
  exists body,
    Forall movement_event body /\
    (executeSortingMovement P d s =
       (Ok true,
        completed (normalize d) s +++
        (SerialPrint "Executing sorting movement: "
           :: SerialPrintln (normalize d) :: body)) \/
     exists p1,
       executeSortingMovement P d s =
       (Ok false,
        set_currentPosition1 p1 s +++
        (SerialPrint "Executing sorting movement: "
           :: SerialPrintln (normalize d) :: body))) /\
    (fault_free P -> fst (executeSortingMovement P d s) = Ok true).
Proof.
  intros Hr Ht.
  rewrite (executeSortingMovement_ready d s t Hr Ht).
  unfold try_catch.
  destruct (movement_steps P (normalize d) t _) as [r s'] eqn:H.
  apply movement_steps_spec in H; [|now apply target_of_cases].
  destruct H as (body & Hall & [[-> ->]|[-> [p1 ->]]] & Hff).
  - exists body. split; [exact Hall|]. split; [|reflexivity].
    left. f_equal. destruct s. same_state.
  - exists (body ++ [SerialPrintln "ERROR: Servo movement failed"]).
    split; [movement_events_tac|]. split.
    + right. exists p1. unfold bind, Serial_println, emit, ret.
      f_equal. destruct s. same_state.
    + intros F. discriminate (Hff F).
Qed.

(** Every call returns normally, and what it did is one of three things. *)
Lemma executeSortingMovement_outcome d s :
  exists b evs,
    fst (executeSortingMovement P d s) = Ok b /\
    invocation_events evs /\
    (b = true ->
       systemReady s = true /\
       In (normalize d) ["LEFT"; "RIGHT"; "CENTER"] /\
       snd (executeSortingMovement P d s) = completed (normalize d) s +++ evs) /\
    (b = false ->
       exists p1,
         snd (executeSortingMovement P d s) = set_currentPosition1 p1 s +++ evs).
Proof.
  destruct (systemReady s) eqn:Hr.
  - destruct (target_of (normalize d)) as [t|] eqn:Ht.
    + destruct (executeSortingMovement_valid d s t Hr Ht)
        as (body & Hall & [H|[p1 H]] & _); rewrite H; cbn [fst snd].
      * exists true. eexists. split; [reflexivity|]. split; [|split].
        -- right; right. exists (normalize d), body.
           split; [now apply target_of_In in Ht|]. now split.
        -- intros _. split; [reflexivity|]. split; [|reflexivity].
           now apply target_of_In in Ht.
        -- discriminate.
      * exists false. eexists. split; [reflexivity|]. split; [|split].
        -- right; right. exists (normalize d), body.
           split; [now apply target_of_In in Ht|]. now split.
        -- discriminate.
        -- intros _. now exists p1.
    + rewrite (executeSortingMovement_invalid d s Hr Ht); cbn [fst snd].
      exists false. eexists. split; [reflexivity|]. split; [|split].
      * right; left. now exists (normalize d).
      * discriminate.
      * intros _. exists (currentPosition1 s). now destruct s.
  - rewrite (executeSortingMovement_not_ready d s Hr); cbn [fst snd].
    exists false. eexists. split; [reflexivity|]. split; [|split].
    + now left.
    + discriminate.
    + intros _. exists (currentPosition1 s). now destruct s.
Qed.

Lemma normalize_token dir :
  In dir ["LEFT"; "RIGHT"; "CENTER"] -> normalize dir = dir.
Proof.
  simpl. intros [<-|[<-|[<-|[]]]]; reflexivity.
Qed.

(** C3.  When the system is not ready, or the normalised direction is none
    of LEFT, RIGHT, CENTER, [executeSortingMovement] returns [false] having
    done nothing but print one error line: no servo write, and every global
    (readiness, tracked angles, statistics, start time) as before. *)
Theorem executeSortingMovement_rejects d s :
  systemReady s = false \/ ~ In (normalize d) ["LEFT"; "RIGHT"; "CENTER"] ->
  let msg := if systemReady s
             then ("ERROR: Invalid direction - " ++ normalize d)%string
             else "ERROR: System not ready" in
  let s' := snd (executeSortingMovement P d s) in
  executeSortingMovement P d s = (Ok false, s +++ [SerialPrintln msg]) /\
  hardware_writes (trace s') = hardware_writes (trace s) /\
  counters s' = counters s /\
  currentPosition1 s' = currentPosition1 s /\
  currentPosition2 s' = currentPosition2 s /\
  systemReady s' = systemReady s /\
  startTime s' = startTime s.
Proof.
  intros H.
  assert (E : executeSortingMovement P d s =
              (Ok false,
               s +++ [SerialPrintln
                        (if systemReady s
                         then ("ERROR: Invalid direction - " ++ normalize d)%string
                         else "ERROR: System not ready")])).
  { destruct (systemReady s) eqn:Hr.
    - destruct H as [H|H]; [discriminate|].
      apply executeSortingMovement_invalid; [exact Hr|].
      now apply target_of_none.
    - now apply executeSortingMovement_not_ready. }
  cbv zeta. rewrite E. cbn [snd]. split; [reflexivity|].
  rewrite trace_record, hardware_writes_app. cbn.
  rewrite app_nil_r. repeat split; reflexivity.
Qed.

(** C5.  For each of the directions LEFT, RIGHT and CENTER, with the system
    ready: a call that completes successfully leaves the primary channel's
    tracked angle at the center angle and the secondary channel's tracked
    angle at its idle angle; and on a platform without faults the call does
    complete successfully. *)
Theorem executeSortingMovement_returns_to_center d s :
  In d ["LEFT"; "RIGHT"; "CENTER"] ->
  systemReady s = true ->
  (fst (executeSortingMovement P d s) = Ok true ->
   currentPosition1 (snd (executeSortingMovement P d s)) = CENTER_POSITION /\
   currentPosition2 (snd (executeSortingMovement P d s)) = SERVO2_IDLE) /\
  (fault_free P -> fst (executeSortingMovement P d s) = Ok true).
Proof.
  intros Hd Hr.
  assert (Ht : exists t, target_of (normalize d) = Some t).
  { rewrite (normalize_token d Hd). simpl in Hd.
    destruct Hd as [<-|[<-|[<-|[]]]]; eexists; reflexivity. }
  destruct Ht as [t Ht].
  destruct (executeSortingMovement_valid d s t Hr Ht)
    as (body & _ & [H|[p1 H]] & Hff).
  - split; [|exact Hff]. intros _. rewrite H. split; reflexivity.
  - split; [|exact Hff]. rewrite H. discriminate.
Qed.

(** *** Statistics *)

(** Decide the comparisons of string literals in the goal. *)
Ltac eval_eqb :=
  repeat match goal with
         | |- context [String.eqb ?a ?b] =>
             let v := eval vm_compute in (String.eqb a b) in
             lazymatch v with
             | true => change (String.eqb a b) with true
             | false => change (String.eqb a b) with false
             end
         end;
  cbv iota.

Lemma ulong_range z : 0 <= ulong z < ULONG_MODULUS.
Proof. unfold ulong. apply Z.mod_pos_bound. reflexivity. Qed.

Lemma ulong_small z : 0 <= z < ULONG_MODULUS -> ulong z = z.
Proof. unfold ulong. apply Z.mod_small. Qed.

Lemma ulong_incr_add c n :
  ulong (ulong_incr c + n) = ulong (c + (1 + n)).
Proof.
  unfold ulong_incr, ulong.
  rewrite Zplus_mod_idemp_l. f_equal. lia.
Qed.

(** What one call does to the counters. *)
Lemma executeSortingMovement_counters d s :
  let s' := snd (executeSortingMovement P d s) in
  (fst (executeSortingMovement P d s) = Ok true ->
   In (normalize d) ["LEFT"; "RIGHT"; "CENTER"] /\
   totalMoves s' = ulong_incr (totalMoves s) /\
   leftMoves s' = (if String.eqb (normalize d) "LEFT"
                   then ulong_incr (leftMoves s) else leftMoves s) /\
   rightMoves s' = (if String.eqb (normalize d) "RIGHT"
                    then ulong_incr (rightMoves s) else rightMoves s)) /\
  (fst (executeSortingMovement P d s) <> Ok true -> counters s' = counters s) /\
  systemReady s' = systemReady s.
Proof.
  cbv zeta.
  destruct (executeSortingMovement_outcome d s) as (b & evs & Hb & _ & Ht & Hf).
  rewrite Hb. destruct b.
  - destruct (Ht eq_refl) as (_ & Hin & ->).
    split; [|split]; [ intros _; repeat split; auto | congruence | reflexivity ].
  - destruct (Hf eq_refl) as (p1 & ->).
    split; [|split]; [ discriminate | reflexivity | reflexivity ].
Qed.

Lemma calls_for_cons dir d ds :
  calls_for dir (d :: ds) =
  (if String.eqb d dir then 1 else 0) + calls_for dir ds.
Proof.
  unfold calls_for. simpl.
  destruct (string_dec d dir) as [->|Hne].
  - rewrite String.eqb_refl. lia.
  - apply String.eqb_neq in Hne. rewrite Hne. lia.
Qed.

Lemma calls_for_nonneg dir ds : 0 <= calls_for dir ds.
Proof. unfold calls_for. lia. Qed.

Lemma run_movements_counters ds :
  forall s,
    0 <= totalMoves s < ULONG_MODULUS ->
    0 <= leftMoves s < ULONG_MODULUS ->
    0 <= rightMoves s < ULONG_MODULUS ->
    let rs := fst (run_movements P ds s) in
    let s' := snd (run_movements P ds s) in
    let done := successful ds rs in
    totalMoves s' = ulong (totalMoves s + Z.of_nat (length done)) /\
    leftMoves s' = ulong (leftMoves s + calls_for "LEFT" done) /\
    rightMoves s' = ulong (rightMoves s + calls_for "RIGHT" done) /\
    Z.of_nat (length done) =
    calls_for "LEFT" done + calls_for "RIGHT" done + calls_for "CENTER" done.
Proof.
  cbv zeta.
  induction ds as [|d ds IH]; intros s Ht Hl Hr.
  - cbn. unfold calls_for. cbn. rewrite !Z.add_0_r, !ulong_small by assumption.
    auto.
  - cbn [run_movements].
    pose proof (executeSortingMovement_counters d s) as Hc. cbv zeta in Hc.
    destruct (executeSortingMovement P d s) as [r s1]. cbn [fst snd] in Hc.
    destruct Hc as (Hgood & Hbad & _).
    specialize (IH s1).
    destruct (run_movements P ds s1) as [rs s2]. cbn [fst snd] in IH |- *.
    assert (Hcase : r = Ok true \/ r <> Ok true).
    { destruct r as [[]|]; auto; right; discriminate. }
    destruct Hcase as [->|Hne].
    + destruct (Hgood eq_refl) as (Hin & Et & El & Er).
      cbn [successful length]. rewrite !calls_for_cons.
      assert (Hl1 : 0 <= leftMoves s1 < ULONG_MODULUS).
      { rewrite El. destruct (String.eqb (normalize d) "LEFT");
          [apply ulong_range|exact Hl]. }
      assert (Hr1 : 0 <= rightMoves s1 < ULONG_MODULUS).
      { rewrite Er. destruct (String.eqb (normalize d) "RIGHT");
          [apply ulong_range|exact Hr]. }
      destruct IH as (IHt & IHl & IHr & IHn);
        [rewrite Et; apply ulong_range | exact Hl1 | exact Hr1 |].
      rewrite IHt, IHl, IHr, Et, El, Er, Nat2Z.inj_succ, IHn.
      simpl in Hin.
      destruct Hin as [E|[E|[E|[]]]]; rewrite <- E; eval_eqb;
        rewrite ?ulong_incr_add; repeat split; f_equal; lia.
    + specialize (Hbad Hne). unfold counters in Hbad.
      injection Hbad as Et El Er.
      assert (Hs : successful (d :: ds) (r :: rs) = successful ds rs).
      { destruct r as [[]|]; try reflexivity. now contradiction Hne. }
      rewrite Hs, <- Et, <- El, <- Er.
      apply IH; congruence.
Qed.

Lemma counter_step_refl c : counter_step c c.
Proof. split; [now left|lia]. Qed.

Lemma counter_step_incr c : counter_step c (ulong_incr c).
Proof.
  split; [now right|]. intros Hc.
  unfold ulong_incr. rewrite ulong_small; unfold ULONG_MODULUS in *; lia.
Qed.

(** C2 (amended).  Take any sequence of calls to [executeSortingMovement]
    from zero counters, and let N, M and K count the calls that returned
    [true] with (normalised) direction LEFT, RIGHT and CENTER.  Then
    [totalMoves], [leftMoves] and [rightMoves] are N+M+K, N and M modulo
    2^32, the range of [unsigned long], hence exactly N+M+K, N and M as long
    as N+M+K < 2^32.  A successful call increments [totalMoves] (modulo
    2^32); a successful CENTER call leaves [leftMoves] and [rightMoves]
    alone; and no call does anything to a counter but keep it or increment
    it, so short of wrap-around no counter goes down. *)
Theorem run_movements_statistics ds s :
  counters s = (0, 0, 0) ->
  let rs := fst (run_movements P ds s) in
  let s' := snd (run_movements P ds s) in
  let N := calls_for "LEFT" (successful ds rs) in
  let M := calls_for "RIGHT" (successful ds rs) in
  let K := calls_for "CENTER" (successful ds rs) in
  (totalMoves s' = (N + M + K) mod ULONG_MODULUS /\
   leftMoves s' = N mod ULONG_MODULUS /\
   rightMoves s' = M mod ULONG_MODULUS) /\
  (N + M + K < ULONG_MODULUS ->
   totalMoves s' = N + M + K /\ leftMoves s' = N /\ rightMoves s' = M) /\
  (forall d s0,
      let s1 := snd (executeSortingMovement P d s0) in
      counter_step (totalMoves s0) (totalMoves s1) /\
      counter_step (leftMoves s0) (leftMoves s1) /\
      counter_step (rightMoves s0) (rightMoves s1) /\
      (fst (executeSortingMovement P d s0) = Ok true ->
       totalMoves s1 = ulong_incr (totalMoves s0) /\
       (normalize d = "CENTER" ->
        leftMoves s1 = leftMoves s0 /\ rightMoves s1 = rightMoves s0))).
Proof.
  intros H0. unfold counters in H0. injection H0 as Ht Hl Hr.
  cbv zeta.
  destruct (run_movements_counters ds s) as (Et & El & Er & En);
    try (unfold ULONG_MODULUS; lia).
  rewrite Ht, Hl, Hr, En in *. cbn [Z.add] in Et, El, Er.
  pose proof (calls_for_nonneg "LEFT" (successful ds (fst (run_movements P ds s)))).
  pose proof (calls_for_nonneg "RIGHT" (successful ds (fst (run_movements P ds s)))).
  pose proof (calls_for_nonneg "CENTER" (successful ds (fst (run_movements P ds s)))).
  split; [|split].
  - auto.
  - intros Hsmall. rewrite Et, El, Er.
    rewrite !ulong_small by lia. auto.
  - intros d s0.
    pose proof (executeSortingMovement_counters d s0) as Hc. cbv zeta in Hc.
    destruct Hc as (Hgood & Hbad & _).
    destruct (executeSortingMovement P d s0) as [r s1]. cbn [fst snd] in *.
    assert (Hcase : r = Ok true \/ r <> Ok true).
    { destruct r as [[]|]; auto; right; discriminate. }
    destruct Hcase as [->|Hne].
    + destruct (Hgood eq_refl) as (_ & Et' & El' & Er').
      rewrite Et', El', Er'.
      split; [apply counter_step_incr|].
      split; [destruct (String.eqb (normalize d) "LEFT");
              [apply counter_step_incr|apply counter_step_refl]|].
      split; [destruct (String.eqb (normalize d) "RIGHT");
              [apply counter_step_incr|apply counter_step_refl]|].
      intros _. split; [reflexivity|].
      intros E. rewrite E. split; reflexivity.
    + specialize (Hbad Hne). unfold counters in Hbad.
      injection Hbad as -> -> ->.
      repeat (split; [apply counter_step_refl|]).
      intros E. contradiction.
Qed.

Lemma executeSortingMovement_center_succeeds s :
  fault_free P ->
  systemReady s = true ->
  fst (executeSortingMovement P "CENTER" s) = Ok true.
Proof.
  intros Hff Hr.
  destruct (executeSortingMovement_valid "CENTER" s CENTER_POSITION Hr eq_refl)
    as (_ & _ & _ & H).
  now apply H.
Qed.

Lemma run_centers n :
  fault_free P ->
  forall s,
    systemReady s = true ->
    0 <= totalMoves s < ULONG_MODULUS ->
    Forall (eq (Ok true)) (fst (run_movements P (repeat "CENTER" n) s)) /\
    totalMoves (snd (run_movements P (repeat "CENTER" n) s)) =
    ulong (totalMoves s + Z.of_nat n).
Proof.
  intros Hff. induction n as [|n IH]; intros s Hr Ht.
  - cbn. rewrite Z.add_0_r, ulong_small by assumption. auto.
  - cbn [repeat run_movements].
    pose proof (executeSortingMovement_center_succeeds s Hff Hr) as Hok.
    pose proof (executeSortingMovement_counters "CENTER" s) as Hc.
    cbv zeta in Hc. destruct Hc as (Hgood & _ & Hready).
    destruct (executeSortingMovement P "CENTER" s) as [r s1].
    cbn [fst snd] in *. subst r.
    destruct (Hgood eq_refl) as (_ & Et & _).
    destruct (IH s1) as (IHall & IHt).
    { congruence. }
    { rewrite Et. apply ulong_range. }
    destruct (run_movements P (repeat "CENTER" n) s1) as [rs s2].
    cbn [fst snd] in *. split; [now constructor|].
    rewrite IHt, Et, ulong_incr_add. f_equal. lia.
Qed.

End Choreography.

(* ====================================================================== *)
(** ** Commands *)

Section Commands.

Variable P : Platform.

Lemma bind_ok {A B} (m : M A) (k : A -> M B) s a s' :
  m s = (Ok a, s') -> bind m k s = k a s'.
Proof. intros E. unfold bind. now rewrite E. Qed.

Lemma pending_after_app a b :
  forall p, pending_after p (a ++ b) = pending_after (pending_after p a) b.
Proof.
  induction a as [|e a IH]; intros p; [reflexivity|].
  destruct e; simpl; apply IH.
Qed.

Lemma serial_lines_from_app a b :
  forall p,
    serial_lines_from p (a ++ b) =
    serial_lines_from p a ++ serial_lines_from (pending_after p a) b.
Proof.
  induction a as [|e a IH]; intros p; [reflexivity|].
  destruct e; simpl; rewrite ?IH; reflexivity.
Qed.

Lemma ends_line_pending evs p : ends_line evs -> pending_after p evs = "".
Proof.
  intros (pre & t & ->). now rewrite pending_after_app.
Qed.

Lemma movement_events_no_marker body :
  Forall movement_event body -> filter is_test_marker body = [].
Proof.
  induction 1 as [|e body He _ IH]; [reflexivity|].
  simpl. rewrite IH.
  destruct He as [(c & a & ->)|[(ms & -> & Hms)|(t & -> & Ht)]].
  - reflexivity.
  - simpl in Hms. destruct Hms as [<-|[<-|[<-|[<-|[]]]]]; reflexivity.
  - simpl in Ht. destruct Ht as [<-|[<-|[<-|[]]]]; reflexivity.
Qed.

Lemma invocation_no_marker evs :
  invocation_events evs -> filter is_test_marker evs = [].
Proof.
  intros [->|[(dir & ->)|(dir & body & Hdir & -> & Hall)]].
  - reflexivity.
  - reflexivity.
  - simpl in Hdir.
    destruct Hdir as [<-|[<-|[<-|[]]]]; simpl;
      now apply movement_events_no_marker.
Qed.

Lemma executeSortingMovement_trace d s :
  exists b s' evs,
    executeSortingMovement P d s = (Ok b, s') /\
    trace s' = trace s ++ evs /\
    invocation_events evs.
Proof.
  destruct (executeSortingMovement_outcome P d s) as (b & evs & Hb & Hev & Ht & Hf).
  destruct (executeSortingMovement P d s) as [r s'].
  cbn [fst snd] in *. subst r.
  exists b, s', evs. split; [reflexivity|]. split; [|exact Hev].
  destruct b.
  - destruct (Ht eq_refl) as (_ & _ & ->). reflexivity.
  - destruct (Hf eq_refl) as (p1 & ->). reflexivity.
Qed.

Lemma prefix_append s1 s2 : String.prefix s1 (s1 ++ s2) = true.
Proof.
  induction s1 as [|a s1 IH]; simpl.
  - now destruct s2.
  - destruct (ascii_dec a a); [exact IH|contradiction].
Qed.

Lemma test_step_spec d s :
  exists s' evs,
    test_step P d s = (Ok tt, s') /\
    trace s' = trace s ++ evs /\
    filter is_test_marker evs =
    [SerialPrintln ("Testing position: " ++ d); Delay 500].
Proof.
  unfold test_step, bind at 1, Serial_println at 1, emit at 1.
  destruct (executeSortingMovement_trace d
              (s +++ [SerialPrintln ("Testing position: " ++ d)]))
    as (b & s1 & evs & E & Ht & Hev).
  rewrite (bind_ok _ _ _ _ _ E).
  exists (s1 +++ [Delay 500]),
         (SerialPrintln ("Testing position: " ++ d) :: evs ++ [Delay 500]).
  split; [reflexivity|]. split.
  - rewrite trace_record, Ht, trace_record, <- !app_assoc. reflexivity.
  - cbn [filter is_test_marker].
    replace (String.prefix "Testing position: "
               ("Testing position: " ++ d)) with true
      by (symmetry; apply prefix_append).
    rewrite filter_app, (invocation_no_marker evs Hev). reflexivity.
Qed.

Lemma runCompleteTest_loop s :
  runCompleteTest P s =
  (Serial_println "Starting complete system test..." ;;
   (test_step P "CENTER" ;; test_step P "LEFT" ;; test_step P "CENTER" ;;
    test_step P "RIGHT" ;; test_step P "CENTER" ;; ret tt) ;;
   Serial_println "Complete system test finished") s.
Proof. reflexivity. Qed.

(** The test sequence, step by step: the states between the steps and what
    each step appended to the history. *)
Lemma runCompleteTest_steps s :
  exists s1 s2 s3 s4 s5 e1 e2 e3 e4 e5,
    let s0 := s +++ [SerialPrintln "Starting complete system test..."] in
    test_step P "CENTER" s0 = (Ok tt, s1) /\ trace s1 = trace s0 ++ e1 /\
    test_step P "LEFT" s1 = (Ok tt, s2) /\ trace s2 = trace s1 ++ e2 /\
    test_step P "CENTER" s2 = (Ok tt, s3) /\ trace s3 = trace s2 ++ e3 /\
    test_step P "RIGHT" s3 = (Ok tt, s4) /\ trace s4 = trace s3 ++ e4 /\
    test_step P "CENTER" s4 = (Ok tt, s5) /\ trace s5 = trace s4 ++ e5 /\
    filter is_test_marker (e1 ++ e2 ++ e3 ++ e4 ++ e5) =
    [SerialPrintln "Testing position: CENTER"; Delay 500;
     SerialPrintln "Testing position: LEFT"; Delay 500;
     SerialPrintln "Testing position: CENTER"; Delay 500;
     SerialPrintln "Testing position: RIGHT"; Delay 500;
     SerialPrintln "Testing position: CENTER"; Delay 500] /\
    runCompleteTest P s =
    (Ok tt, s5 +++ [SerialPrintln "Complete system test finished"]) /\
    test_script P s =
    (Ok tt, s5 +++ [SerialPrintln "Complete system test finished"]).
Proof.
  set (s0 := s +++ [SerialPrintln "Starting complete system test..."]).
  destruct (test_step_spec "CENTER" s0) as (s1 & e1 & E1 & T1 & M1).
  destruct (test_step_spec "LEFT" s1) as (s2 & e2 & E2 & T2 & M2).
  destruct (test_step_spec "CENTER" s2) as (s3 & e3 & E3 & T3 & M3).
  destruct (test_step_spec "RIGHT" s3) as (s4 & e4 & E4 & T4 & M4).
  destruct (test_step_spec "CENTER" s4) as (s5 & e5 & E5 & T5 & M5).
  exists s1, s2, s3, s4, s5, e1, e2, e3, e4, e5. cbv zeta.
  repeat (split; [assumption|]).
  split; [|split].
  - rewrite !filter_app, M1, M2, M3, M4, M5. reflexivity.
  - rewrite runCompleteTest_loop.
    unfold bind at 1, Serial_println at 1, emit at 1. fold s0.
    unfold bind at 1.
    rewrite (bind_ok _ _ _ _ _ E1), (bind_ok _ _ _ _ _ E2),
      (bind_ok _ _ _ _ _ E3), (bind_ok _ _ _ _ _ E4), (bind_ok _ _ _ _ _ E5).
    reflexivity.
  - unfold test_script.
    unfold bind at 1, Serial_println at 1, emit at 1. fold s0.
    rewrite (bind_ok _ _ _ _ _ E1), (bind_ok _ _ _ _ _ E2),
      (bind_ok _ _ _ _ _ E3), (bind_ok _ _ _ _ _ E4), (bind_ok _ _ _ _ _ E5).
    reflexivity.
Qed.

Lemma runCompleteTest_script s : runCompleteTest P s = test_script P s.
Proof.
  destruct (runCompleteTest_steps s)
    as (s1 & s2 & s3 & s4 & s5 & e1 & e2 & e3 & e4 & e5 & H).
  cbv zeta in H. decompose [and] H. congruence.
Qed.

Lemma processCommand_dispatch command s :
  processCommand P command s =
  (Serial_println ("Received command: " ++ normalize command) ;;
   (if String.eqb (normalize command) "LEFT" then report_movement P "LEFT"
    else if String.eqb (normalize command) "RIGHT" then report_movement P "RIGHT"
    else if String.eqb (normalize command) "CENTER" then report_movement P "CENTER"
    else if String.eqb (normalize command) "TEST" then runCompleteTest P
    else if String.eqb (normalize command) "STATUS" then printSystemStatus P
    else
      Serial_println ("ERROR: Unknown command - " ++ normalize command) ;;
      Serial_println "Valid commands: LEFT, RIGHT, CENTER, TEST, STATUS") ;;
   Serial_println "READY") s.
Proof. reflexivity. Qed.

(** C8.  [runCompleteTest] is the five-step script CENTER, LEFT, CENTER,
    RIGHT, CENTER: it returns normally whatever the five calls of
    [executeSortingMovement] return, and in what it appends to the history
    the announcements of the positions and the 500 ms pauses are exactly
    five of each, alternating, in that order.  A command that normalises to
    TEST runs it between the echo of the command and the readiness line. *)
Theorem runCompleteTest_five_invocations s :
  runCompleteTest P s = test_script P s /\
  fst (runCompleteTest P s) = Ok tt /\
  (exists evs,
      trace (snd (runCompleteTest P s)) = trace s ++ evs /\
      filter is_test_marker evs =
      [SerialPrintln "Testing position: CENTER"; Delay 500;
       SerialPrintln "Testing position: LEFT"; Delay 500;
       SerialPrintln "Testing position: CENTER"; Delay 500;
       SerialPrintln "Testing position: RIGHT"; Delay 500;
       SerialPrintln "Testing position: CENTER"; Delay 500]) /\
  (forall command,
      normalize command = "TEST" ->
      processCommand P command s =
      (Serial_println "Received command: TEST" ;;
       test_script P ;;
       Serial_println "READY") s).
Proof.
  destruct (runCompleteTest_steps s)
    as (s1 & s2 & s3 & s4 & s5 & e1 & e2 & e3 & e4 & e5 & H).
  cbv zeta in H.
  destruct H as (_ & T1 & _ & T2 & _ & T3 & _ & T4 & _ & T5 & Mk & Er & Es).
  split; [congruence|]. split; [now rewrite Er|]. split.
  - exists (SerialPrintln "Starting complete system test..."
              :: (e1 ++ e2 ++ e3 ++ e4 ++ e5)
              ++ [SerialPrintln "Complete system test finished"]).
    split.
    + rewrite Er. cbn [snd]. rewrite trace_record, T5, T4, T3, T2, T1.
      rewrite trace_record, <- !app_assoc. reflexivity.
    + cbn [filter is_test_marker String.prefix].
      rewrite filter_app, Mk. reflexivity.
  - intros command Hc. rewrite processCommand_dispatch, Hc.
    cbn [String.eqb Ascii.eqb Bool.eqb].
    unfold bind at 1 3. unfold bind at 1 2.
    unfold Serial_println at 1 3, emit at 1 2.
    now rewrite runCompleteTest_script.
Qed.

Lemma report_movement_finishes name : finishes_line (report_movement P name).
Proof.
  intros s. unfold report_movement.
  destruct (executeSortingMovement_trace name s) as (b & s1 & evs & E & Ht & _).
  rewrite (bind_ok _ _ _ _ _ E).
  destruct b; unfold Serial_println, emit; do 2 eexists;
    (split; [reflexivity|]);
    (split; [rewrite trace_record, Ht, <- app_assoc; reflexivity|]);
    do 2 eexists; reflexivity.
Qed.

Lemma runCompleteTest_finishes : finishes_line (runCompleteTest P).
Proof.
  intros s.
  destruct (runCompleteTest_steps s)
    as (s1 & s2 & s3 & s4 & s5 & e1 & e2 & e3 & e4 & e5 & H).
  cbv zeta in H.
  destruct H as (_ & T1 & _ & T2 & _ & T3 & _ & T4 & _ & T5 & _ & Er & _).
  rewrite Er. do 2 eexists. split; [reflexivity|]. split.
  - rewrite trace_record, T5, T4, T3, T2, T1, trace_record, <- !app_assoc.
    reflexivity.
  - exists (SerialPrintln "Starting complete system test..."
              :: e1 ++ e2 ++ e3 ++ e4 ++ e5),
           "Complete system test finished".
    cbn [app]. rewrite <- !app_assoc. reflexivity.
Qed.

(** The status report: ten lines, computed from the globals, the clock and
    the memory probe. *)
Lemma printSystemStatus_report s :
  exists free,
    printSystemStatus P s =
    (Ok tt,
     s +++
     [SerialPrintln "=== ARDUINO SYSTEM STATUS ===";
      SerialPrintln ("System Ready: " ++ (if systemReady s then "YES" else "NO"));
      SerialPrintln
        ("Uptime: " ++
         WString.ofZ
           (ulong_sub (ulong (millis_at P (trace s))) (startTime s) / 1000) ++
         " seconds");
      SerialPrintln ("Total Movements: " ++ WString.ofZ (totalMoves s));
      SerialPrintln ("Left Movements: " ++ WString.ofZ (leftMoves s));
      SerialPrintln ("Right Movements: " ++ WString.ofZ (rightMoves s));
      SerialPrintln ("Servo 1 Position: " ++ WString.ofZ (currentPosition1 s));
      SerialPrintln ("Servo 2 Position: " ++ WString.ofZ (currentPosition2 s));
      SerialPrintln ("Free Memory: " ++ WString.ofZ free ++ " bytes");
      SerialPrintln "============================"]).
Proof.
  eexists.
  unfold printSystemStatus, bind, millis, get, freeMemory, Serial_println, emit.
  cbn beta iota. rewrite !record_record. cbn [app].
  reflexivity.
Qed.

Lemma printSystemStatus_finishes : finishes_line (printSystemStatus P).
Proof.
  intros s. destruct (printSystemStatus_report s) as [free ->].
  do 2 eexists. split; [reflexivity|]. split; [reflexivity|].
  eexists (_ :: _ :: _ :: _ :: _ :: _ :: _ :: _ :: [_]), _.
  reflexivity.
Qed.

Lemma unknown_command_finishes c :
  finishes_line
    (Serial_println ("ERROR: Unknown command - " ++ c) ;;
     Serial_println "Valid commands: LEFT, RIGHT, CENTER, TEST, STATUS").
Proof.
  intros s. unfold bind, Serial_println, emit. rewrite record_record.
  do 2 eexists. split; [reflexivity|]. split; [reflexivity|].
  eexists [_], _. reflexivity.
Qed.

(** C4.  Whatever the input line, [processCommand] returns normally and
    the last thing it does is print the readiness token: its last platform
    call is [Serial.println("READY")], and since the output before it ends
    with a finished line, the last line it sends is exactly READY. *)
Theorem processCommand_ends_with_ready command s :
  fst (processCommand P command s) = Ok tt /\
  exists evs,
    trace (snd (processCommand P command s)) =
    trace s ++ evs ++ [SerialPrintln "READY"] /\
    exists lines,
      serial_lines (evs ++ [SerialPrintln "READY"]) = lines ++ ["READY"%string].
Proof.
  rewrite processCommand_dispatch.
  set (c := normalize command).
  set (mid := if String.eqb c "LEFT" then _ else _).
  assert (Hmid : finishes_line mid).
  { subst mid.
    destruct (String.eqb c "LEFT"); [apply report_movement_finishes|].
    destruct (String.eqb c "RIGHT"); [apply report_movement_finishes|].
    destruct (String.eqb c "CENTER"); [apply report_movement_finishes|].
    destruct (String.eqb c "TEST"); [apply runCompleteTest_finishes|].
    destruct (String.eqb c "STATUS"); [apply printSystemStatus_finishes|].
    apply unknown_command_finishes. }
  clearbody mid.
  destruct (Hmid (s +++ [SerialPrintln ("Received command: " ++ c)]))
    as (s1 & evs & E & Ht & Hend).
  assert (Hrun : (Serial_println ("Received command: " ++ c) ;;
                  mid ;; Serial_println "READY") s =
                 (Ok tt, s1 +++ [SerialPrintln "READY"])).
  { unfold bind at 1, Serial_println at 1, emit at 1.
    now rewrite (bind_ok _ _ _ _ _ E). }
  rewrite Hrun. cbn [fst snd].
  split; [reflexivity|].
  exists (SerialPrintln ("Received command: " ++ c) :: evs).
  split.
  - rewrite trace_record, Ht, trace_record, <- !app_assoc. reflexivity.
  - unfold serial_lines.
    rewrite serial_lines_from_app.
    rewrite (ends_line_pending _ "").
    + eexists. reflexivity.
    + destruct Hend as (pre & t & ->).
      now exists (SerialPrintln ("Received command: " ++ c) :: pre), t.
Qed.

(** *** Before initialisation has succeeded *)

Lemma report_movement_not_ready name s :
  systemReady s = false ->
  report_movement P name s =
  (Ok tt,
   s +++ [SerialPrintln "ERROR: System not ready";
          SerialPrintln ("ERROR: " ++ name ++ " movement failed")]).
Proof.
  intros Hr. unfold report_movement.
  rewrite (bind_ok _ _ _ _ _ (executeSortingMovement_not_ready P name s Hr)).
  unfold Serial_println, emit. now rewrite record_record.
Qed.

Lemma test_step_not_ready d s :
  systemReady s = false ->
  test_step P d s = (Ok tt, s +++ rejected_test_step d).
Proof.
  intros Hr. unfold test_step.
  unfold bind at 1, Serial_println at 1, emit at 1.
  rewrite (bind_ok _ _ _ _ _
             (executeSortingMovement_not_ready P d
                (s +++ [SerialPrintln ("Testing position: " ++ d)]) Hr)).
  unfold delay, emit. now rewrite !record_record.
Qed.

Lemma runCompleteTest_not_ready s :
  systemReady s = false ->
  runCompleteTest P s =
  (Ok tt,
   s +++ (SerialPrintln "Starting complete system test..."
            :: rejected_test_step "CENTER" ++ rejected_test_step "LEFT"
            ++ rejected_test_step "CENTER" ++ rejected_test_step "RIGHT"
            ++ rejected_test_step "CENTER"
            ++ [SerialPrintln "Complete system test finished"])).
Proof.
  intros Hr. rewrite runCompleteTest_script. unfold test_script.
  unfold bind at 1, Serial_println at 1, emit at 1.
  do 5 (erewrite bind_ok by (apply test_step_not_ready; exact Hr)).
  unfold Serial_println, emit. now rewrite !record_record.
Qed.

(** C7.  While [systemReady] is false: a movement command is rejected (the
    system-not-ready error and the command's failure line, nothing else); a
    TEST command has all five of its steps rejected the same way, so it
    runs no choreography, only announcements, errors and pauses; a STATUS
    command still prints its report, with the readiness flag shown as NO.
    None of them writes to a servo or changes a global. *)
Theorem not_ready_rejects command s :
  systemReady s = false ->
  (forall name,
      In name ["LEFT"; "RIGHT"; "CENTER"] ->
      normalize command = name ->
      processCommand P command s =
      (Ok tt,
       s +++ [SerialPrintln ("Received command: " ++ name);
              SerialPrintln "ERROR: System not ready";
              SerialPrintln ("ERROR: " ++ name ++ " movement failed");
              SerialPrintln "READY"])) /\
  (normalize command = "TEST" ->
   processCommand P command s =
   (Ok tt,
    s +++ (SerialPrintln "Received command: TEST"
             :: SerialPrintln "Starting complete system test..."
             :: rejected_test_step "CENTER" ++ rejected_test_step "LEFT"
             ++ rejected_test_step "CENTER" ++ rejected_test_step "RIGHT"
             ++ rejected_test_step "CENTER"
             ++ [SerialPrintln "Complete system test finished";
                 SerialPrintln "READY"]))) /\
  (normalize command = "STATUS" ->
   exists uptime free,
     processCommand P command s =
     (Ok tt,
      s +++
      [SerialPrintln "Received command: STATUS";
       SerialPrintln "=== ARDUINO SYSTEM STATUS ===";
       SerialPrintln "System Ready: NO";
       SerialPrintln ("Uptime: " ++ WString.ofZ uptime ++ " seconds");
       SerialPrintln ("Total Movements: " ++ WString.ofZ (totalMoves s));
       SerialPrintln ("Left Movements: " ++ WString.ofZ (leftMoves s));
       SerialPrintln ("Right Movements: " ++ WString.ofZ (rightMoves s));
       SerialPrintln ("Servo 1 Position: " ++ WString.ofZ (currentPosition1 s));
       SerialPrintln ("Servo 2 Position: " ++ WString.ofZ (currentPosition2 s));
       SerialPrintln ("Free Memory: " ++ WString.ofZ free ++ " bytes");
       SerialPrintln "============================";
       SerialPrintln "READY"])) /\
  (In (normalize command) ["LEFT"; "RIGHT"; "CENTER"; "TEST"; "STATUS"] ->
   exists evs,
     processCommand P command s = (Ok tt, s +++ evs) /\
     hardware_writes evs = []).
Proof.
  intros Hr.
  assert (Hmove : forall name,
             In name ["LEFT"; "RIGHT"; "CENTER"] ->
             normalize command = name ->
             processCommand P command s =
             (Ok tt,
              s +++ [SerialPrintln ("Received command: " ++ name);
                     SerialPrintln "ERROR: System not ready";
                     SerialPrintln ("ERROR: " ++ name ++ " movement failed");
                     SerialPrintln "READY"])).
  { intros name Hin Hc. rewrite processCommand_dispatch, Hc.
    unfold bind at 1, Serial_println at 1, emit at 1.
    simpl in Hin.
    destruct Hin as [<-|[<-|[<-|[]]]]; cbn [String.eqb Ascii.eqb Bool.eqb];
      (erewrite bind_ok by (apply report_movement_not_ready; exact Hr));
      unfold Serial_println, emit; now rewrite !record_record. }
  assert (Htest : normalize command = "TEST" ->
             processCommand P command s =
             (Ok tt,
              s +++ (SerialPrintln "Received command: TEST"
                       :: SerialPrintln "Starting complete system test..."
                       :: rejected_test_step "CENTER" ++ rejected_test_step "LEFT"
                       ++ rejected_test_step "CENTER" ++ rejected_test_step "RIGHT"
                       ++ rejected_test_step "CENTER"
                       ++ [SerialPrintln "Complete system test finished";
                           SerialPrintln "READY"]))).
  { intros Hc. rewrite processCommand_dispatch, Hc.
    unfold bind at 1, Serial_println at 1, emit at 1.
    cbn [String.eqb Ascii.eqb Bool.eqb].
    erewrite bind_ok by (apply runCompleteTest_not_ready; exact Hr).
    unfold Serial_println, emit. now rewrite !record_record. }
  assert (Hstatus : normalize command = "STATUS" ->
             exists uptime free,
               processCommand P command s =
               (Ok tt,
                s +++
                [SerialPrintln "Received command: STATUS";
                 SerialPrintln "=== ARDUINO SYSTEM STATUS ===";
                 SerialPrintln "System Ready: NO";
                 SerialPrintln ("Uptime: " ++ WString.ofZ uptime ++ " seconds");
                 SerialPrintln ("Total Movements: " ++ WString.ofZ (totalMoves s));
                 SerialPrintln ("Left Movements: " ++ WString.ofZ (leftMoves s));
                 SerialPrintln ("Right Movements: " ++ WString.ofZ (rightMoves s));
                 SerialPrintln ("Servo 1 Position: " ++ WString.ofZ (currentPosition1 s));
                 SerialPrintln ("Servo 2 Position: " ++ WString.ofZ (currentPosition2 s));
                 SerialPrintln ("Free Memory: " ++ WString.ofZ free ++ " bytes");
                 SerialPrintln "============================";
                 SerialPrintln "READY"])).
  { intros Hc. rewrite processCommand_dispatch, Hc.
    unfold bind at 1, Serial_println at 1, emit at 1.
    cbn [String.eqb Ascii.eqb Bool.eqb].
    destruct (printSystemStatus_report (s +++ [SerialPrintln "Received command: STATUS"]))
      as [free E].
    rewrite (bind_ok _ _ _ _ _ E).
    unfold Serial_println, emit. rewrite !record_record.
    cbn [systemReady record]. rewrite Hr.
    eexists. exists free. reflexivity. }
  repeat split; auto.
  cbn [In]. intros [E|[E|[E|[E|[E|[]]]]]]; symmetry in E.
  - eexists. split; [apply (Hmove "LEFT"); simpl; auto|reflexivity].
  - eexists. split; [apply (Hmove "RIGHT"); simpl; auto|reflexivity].
  - eexists. split; [apply (Hmove "CENTER"); simpl; auto|reflexivity].
  - eexists. split; [apply (Htest E)|reflexivity].
  - destruct (Hstatus E) as (uptime & free & H).
    eexists. split; [exact H|reflexivity].
Qed.

(** *** One iteration of the main loop *)

Lemma normalize_empty : normalize "" = "".
Proof. reflexivity. Qed.

(** C6 (amended).  An iteration of [loop] that finds nothing in the
    receive buffer sends nothing: it only waits its 10 ms.  A line that was
    received and is empty after trimming is not skipped: it is answered as
    an unknown command, with the echo line, the error line, the list of
    valid commands and the readiness line. *)
Theorem loop_on_empty_input s :
  (rx s = "" -> loop P s = (Ok tt, s +++ [Delay 10])) /\
  (rx s <> "" ->
   WString.trim (fst (WString.split_at newline (rx s))) = "" ->
   loop P s =
   (Ok tt,
    set_rx (snd (WString.split_at newline (rx s))) s +++
    [SerialPrintln "Received command: ";
     SerialPrintln "ERROR: Unknown command - ";
     SerialPrintln "Valid commands: LEFT, RIGHT, CENTER, TEST, STATUS";
     SerialPrintln "READY";
     Delay 10])).
Proof.
  split.
  - intros E. unfold loop, bind, Serial_available. rewrite E. reflexivity.
  - intros Hne Hline.
    unfold loop. unfold bind at 1. unfold Serial_available at 1.
    replace (Z.of_nat (String.length (rx s)) >? 0) with true
      by (destruct (rx s); [contradiction|reflexivity]).
    cbn [when].
    unfold bind at 1. unfold bind at 1. unfold Serial_readStringUntil at 1.
    destruct (WString.split_at newline (rx s)) as [line rest].
    cbn [fst snd] in *.
    rewrite Hline, processCommand_dispatch, normalize_empty.
    unfold bind, Serial_println, delay, emit.
    cbn [String.eqb Ascii.eqb Bool.eqb append].
    now rewrite !record_record.
Qed.

End Commands.

(* ====================================================================== *)
(** ** Concrete runs *)

Lemma quiet_fault_free : fault_free quiet.
Proof. intros h e. reflexivity. Qed.

Lemma started_ready pending : systemReady (started pending) = true.
Proof. reflexivity. Qed.

Lemma started_counters pending : counters (started pending) = (0, 0, 0).
Proof. reflexivity. Qed.

(** C10, on the sweep from 90 down to 0 right after start-up. *)
Lemma moveServoSmoothly_writes_within_endpoints_witness :
  (0 <= 90 <= 180 /\ 0 <= 0 <= 180) /\
  exists evs,
    snd (moveServoSmoothly quiet servo1 90 0 (started "")) = started "" +++ evs /\
    forall c x,
      In (c, x) (hardware_writes evs) ->
      c = servo1 /\ Z.min 90 0 <= x <= Z.max 90 0 /\ 0 <= x <= 180.
Proof.
  split; [lia|].
  apply (moveServoSmoothly_writes_within_endpoints quiet servo1 90 0 (started ""));
    lia.
Defined.

(** C1 as stated fails when the end points are equal: a channel last
    commanded to 0 and asked to move "from 90 to 90" is not written to, and
    stays commanded to 0. *)
Lemma stale_channel_is_not_moved :
  let s := started "" +++ [ServoWrite servo1 0] in
  (0 <= 90 <= 180) /\
  fst (moveServoSmoothly quiet servo1 90 90 s) = Ok tt /\
  commandedAngle servo1 (trace (snd (moveServoSmoothly quiet servo1 90 90 s)))
  = Some 0 /\
  commandedAngle servo1 (trace (snd (moveServoSmoothly quiet servo1 90 90 s)))
  <> Some 90.
Proof.
  cbv zeta. split; [lia|]. split; [reflexivity|].
  split; [reflexivity|]. vm_compute. discriminate.
Qed.

(** C1 (amended), on the sweep from 90 down to 0 right after start-up. *)
Lemma moveServoSmoothly_final_write_witness :
  (0 <= 90 <= 180 /\ 0 <= 0 <= 180) /\
  fst (moveServoSmoothly quiet servo1 90 0 (started "")) = Ok tt /\
  commandedAngle servo1
    (trace (snd (moveServoSmoothly quiet servo1 90 0 (started "")))) = Some 0.
Proof.
  split; [lia|].
  destruct (moveServoSmoothly_final_write quiet servo1 90 0 (started ""))
    as (Hff & Hne & _); [lia|lia|].
  pose proof (Hff quiet_fault_free) as Hok.
  split; [exact Hok|].
  apply Hne; [lia|exact Hok].
Defined.

(** C3, on a LEFT request before start-up. *)
Lemma executeSortingMovement_rejects_witness :
  systemReady (boot "") = false /\
  executeSortingMovement quiet "LEFT" (boot "") =
  (Ok false, boot "" +++ [SerialPrintln "ERROR: System not ready"]).
Proof.
  split; [reflexivity|].
  apply (executeSortingMovement_rejects quiet "LEFT" (boot "")).
  left. reflexivity.
Defined.

(** C5, on a LEFT request right after start-up. *)
Lemma executeSortingMovement_returns_to_center_witness :
  In "LEFT" ["LEFT"; "RIGHT"; "CENTER"] /\
  systemReady (started "") = true /\
  fst (executeSortingMovement quiet "LEFT" (started "")) = Ok true /\
  currentPosition1 (snd (executeSortingMovement quiet "LEFT" (started "")))
  = CENTER_POSITION /\
  currentPosition2 (snd (executeSortingMovement quiet "LEFT" (started "")))
  = SERVO2_IDLE.
Proof.
  assert (Hin : In "LEFT" ["LEFT"; "RIGHT"; "CENTER"]) by (simpl; auto).
  destruct (executeSortingMovement_returns_to_center quiet "LEFT" (started "")
              Hin (started_ready ""))
    as (Hpos & Hff).
  pose proof (Hff quiet_fault_free) as Hok.
  split; [exact Hin|]. split; [reflexivity|]. split; [exact Hok|].
  exact (Hpos Hok).
Defined.

(** C2 (amended), on five requests of which one is no direction. *)
Lemma run_movements_statistics_witness :
  let ds := [" left"; "CENTER"; "up"; "Right"; "LEFT"] in
  let s' := snd (run_movements quiet ds (started "")) in
  counters (started "") = (0, 0, 0) /\
  totalMoves s' = 4 /\ leftMoves s' = 2 /\ rightMoves s' = 1.
Proof.
  cbv zeta. split; [reflexivity|].
  destruct (run_movements_statistics quiet
              [" left"; "CENTER"; "up"; "Right"; "LEFT"] (started "")
              (started_counters ""))
    as (_ & Hexact & _).
  apply Hexact. vm_compute. reflexivity.
Defined.

(** C2 as stated fails once a counter wraps: 2^32 successful CENTER
    requests after start-up leave [totalMoves] at 0. *)
Lemma totalMoves_wraps_around :
  counters (started "") = (0, 0, 0) /\
  Forall (eq (Ok true))
         (fst (run_movements quiet centers_until_wrap (started ""))) /\
  calls_for "LEFT" centers_until_wrap = 0 /\
  calls_for "RIGHT" centers_until_wrap = 0 /\
  calls_for "CENTER" centers_until_wrap = ULONG_MODULUS /\
  totalMoves (snd (run_movements quiet centers_until_wrap (started ""))) = 0 /\
  totalMoves (snd (run_movements quiet centers_until_wrap (started ""))) <>
  calls_for "LEFT" centers_until_wrap + calls_for "RIGHT" centers_until_wrap
  + calls_for "CENTER" centers_until_wrap.
Proof.
  unfold centers_until_wrap, calls_for.
  assert (Hn : Z.of_nat (Z.to_nat ULONG_MODULUS) = ULONG_MODULUS)
    by (apply Z2Nat.id; discriminate).
  revert Hn. generalize (Z.to_nat ULONG_MODULUS). intros n Hn.
  destruct (run_centers quiet n quiet_fault_free (started "") (started_ready ""))
    as (Hall & Ht).
  { split; [discriminate|reflexivity]. }
  assert (Hzero : totalMoves (snd (run_movements quiet (repeat "CENTER" n) (started "")))
                  = 0).
  { rewrite Ht, Hn. reflexivity. }
  rewrite !count_occ_repeat_neq by discriminate.
  rewrite count_occ_repeat_eq by reflexivity.
  rewrite Hzero, Hn.
  repeat split; auto. discriminate.
Qed.

(** C7, on a LEFT command before start-up. *)
Lemma not_ready_rejects_witness :
  systemReady (boot "") = false /\
  processCommand quiet "left" (boot "") =
  (Ok tt,
   boot "" +++ [SerialPrintln "Received command: LEFT";
                SerialPrintln "ERROR: System not ready";
                SerialPrintln "ERROR: LEFT movement failed";
                SerialPrintln "READY"]).
Proof.
  split; [reflexivity|].
  destruct (not_ready_rejects quiet "left" (boot "") eq_refl) as (Hmove & _).
  apply (Hmove "LEFT"); [simpl; auto|reflexivity].
Defined.

(** C8, on a TEST command right after start-up. *)
Lemma runCompleteTest_five_invocations_witness :
  normalize " test" = "TEST" /\
  processCommand quiet " test" (started "") =
  (Serial_println "Received command: TEST" ;;
   test_script quiet ;;
   Serial_println "READY") (started "").
Proof.
  split; [reflexivity|].
  destruct (runCompleteTest_five_invocations quiet (started "")) as (_ & _ & _ & H).
  apply H. reflexivity.
Defined.

(** C6 as stated fails: an empty line received right after start-up is
    answered with four lines. *)
Lemma loop_answers_empty_line :
  let s := started (String newline "") in
  WString.trim (fst (WString.split_at newline (rx s))) = "" /\
  exists evs,
    snd (loop quiet s) = set_rx "" s +++ evs /\
    serial_lines evs =
    ["Received command: "; "ERROR: Unknown command - ";
     "Valid commands: LEFT, RIGHT, CENTER, TEST, STATUS"; "READY"]%string /\
    serial_lines evs <> [].
Proof.
  cbv zeta. split; [reflexivity|].
  exists [SerialPrintln "Received command: ";
          SerialPrintln "ERROR: Unknown command - ";
          SerialPrintln "Valid commands: LEFT, RIGHT, CENTER, TEST, STATUS";
          SerialPrintln "READY";
          Delay 10].
  split; [vm_compute; reflexivity|].
  split; [reflexivity|discriminate].
Qed.

(** C6 (amended), on a blank line received right after start-up. *)
Lemma loop_on_empty_input_witness :
  let s := started (String " " (String newline "LEFT")) in
  rx s <> "" /\
  WString.trim (fst (WString.split_at newline (rx s))) = "" /\
  loop quiet s =
  (Ok tt,
   set_rx "LEFT" s +++
   [SerialPrintln "Received command: ";
    SerialPrintln "ERROR: Unknown command - ";
    SerialPrintln "Valid commands: LEFT, RIGHT, CENTER, TEST, STATUS";
    SerialPrintln "READY";
    Delay 10]).
Proof.
  cbv zeta.
  assert (Hne : rx (started (String " " (String newline "LEFT"))) <> "")
    by (vm_compute; discriminate).
  assert (Hline : WString.trim
                    (fst (WString.split_at newline
                            (rx (started (String " " (String newline "LEFT"))))))
                  = "") by reflexivity.
  split; [exact Hne|]. split; [exact Hline|].
  destruct (loop_on_empty_input quiet (started (String " " (String newline "LEFT"))))
    as (_ & H).
  exact (H Hne Hline).
Defined.

(* ====================================================================== *)
(** ** The motions in closed form *)

Section Scripts.

Variable P : Platform.

Lemma sweep_count_next fromPos toPos pos n :
  sweep_count fromPos toPos pos = S n ->
  sweep_cond (step_of fromPos toPos) pos toPos = true /\
  sweep_count fromPos toPos (pos + step_of fromPos toPos) = n.
Proof.
  unfold sweep_count, sweep_cond, step_of.
  destruct (toPos >? fromPos); cbn [Z.gtb Z.compare].
  - destruct (pos <=? toPos) eqn:E1; [|discriminate].
    intros H. split; [reflexivity|].
    apply Z.leb_le in E1.
    destruct (pos + 2 <=? toPos) eqn:E2;
      [apply Z.leb_le in E2|apply Z.leb_gt in E2];
      rewrite Z.abs_eq in * by lia; Z.div_mod_to_equations; lia.
  - destruct (pos >=? toPos) eqn:E1; [|discriminate].
    intros H. split; [reflexivity|].
    rewrite Z.geb_leb in E1. apply Z.leb_le in E1.
    rewrite Z.geb_leb.
    destruct (toPos <=? pos + -2) eqn:E2;
      [apply Z.leb_le in E2|apply Z.leb_gt in E2];
      rewrite Z.abs_neq in * by lia; Z.div_mod_to_equations; lia.
Qed.

Lemma sweep_count_zero fromPos toPos pos :
  sweep_count fromPos toPos pos = O ->
  sweep_cond (step_of fromPos toPos) pos toPos = false.
Proof.
  unfold sweep_count.
  destruct (sweep_cond (step_of fromPos toPos) pos toPos); [|reflexivity].
  intros H. exfalso.
  pose proof (Z.abs_nonneg (toPos - pos)).
  Z.div_mod_to_equations. lia.
Qed.

Lemma sweep_script servo fromPos toPos :
  forall n pos s,
    sweep_count fromPos toPos pos = n ->
    exists evs,
      snd (sweep P servo fromPos toPos pos s) = s +++ evs /\
      ran_until (fst (sweep P servo fromPos toPos pos s))
                (ramp_events servo pos (step_of fromPos toPos) n) evs.
Proof.
  induction n as [|n IH]; intros pos s Hn; rewrite sweep_step.
  - rewrite (sweep_count_zero _ _ _ Hn).
    exists []. rewrite record_nil. split; [reflexivity|].
    exists []. split; reflexivity.
  - destruct (sweep_count_next _ _ _ _ Hn) as [Hc Hn'].
    rewrite Hc. unfold bind, Servo_write, hw_call, delay, emit.
    destruct (hw_fault P (trace s) (ServoWrite servo pos)) eqn:Hf.
    + exists []. rewrite record_nil. split; [reflexivity|].
      eexists. split; [reflexivity|]. cbn. eauto.
    + rewrite record_record. cbn [app].
      destruct (IH (pos + step_of fromPos toPos)
                   (s +++ [ServoWrite servo pos; Delay STEP_DELAY]) Hn')
        as (evs & Hs & rest & Hscript & Hrest).
      exists (ServoWrite servo pos :: Delay STEP_DELAY :: evs).
      rewrite Hs, record_record. split; [reflexivity|].
      exists rest. split; [|exact Hrest].
      unfold ramp_events in *. cbn [ramp flat_map app].
      now rewrite Hscript.
Qed.

Lemma moveServoSmoothly_script servo fromPos toPos s :
  exists evs,
    snd (moveServoSmoothly P servo fromPos toPos s) = s +++ evs /\
    ran_until (fst (moveServoSmoothly P servo fromPos toPos s))
              (motion_script servo fromPos toPos) evs.
Proof.
  unfold moveServoSmoothly, motion_script.
  destruct (fromPos =? toPos).
  - exists []. rewrite record_nil. split; [reflexivity|].
    exists []. split; reflexivity.
  - destruct (sweep_script servo fromPos toPos _ fromPos s eq_refl)
      as (evs & Hs & rest & Hscript & Hrest).
    unfold bind.
    destruct (sweep P servo fromPos toPos fromPos s) as [[[]|] s1];
      cbn [fst snd] in *; subst s1.
    + subst rest. rewrite app_nil_r in Hscript. rewrite Hscript.
      unfold Servo_write, hw_call, delay, emit.
      destruct (hw_fault P (trace (s +++ evs)) (ServoWrite servo toPos)).
      * exists evs. split; [reflexivity|].
        eexists. split; [reflexivity|]. cbn [fst]. eauto.
      * exists (evs ++ [ServoWrite servo toPos; Delay MOVE_TIME]).
        rewrite !record_record. split; [reflexivity|].
        exists []. split; [now rewrite app_nil_r|reflexivity].
    + destruct Hrest as (c & x & rest' & ->).
      exists evs. split; [reflexivity|].
      exists (ServoWrite c x :: rest' ++ [ServoWrite servo toPos; Delay MOVE_TIME]).
      split; [|cbn [fst]; eauto]. rewrite Hscript, <- app_assoc. reflexivity.
Qed.

(** *** What a script writes and how long it takes *)

Lemma ramp_events_writes servo pos step n :
  writes_to servo (ramp_events servo pos step n) = ramp pos step n.
Proof.
  unfold ramp_events. revert pos.
  induction n as [|n IH]; intros pos; [reflexivity|].
  cbn [ramp flat_map app writes_to]. rewrite Channel_eqb_refl.
  now rewrite IH.
Qed.

Lemma ramp_events_writes_other servo c pos step n :
  Channel_eqb servo c = false ->
  writes_to c (ramp_events servo pos step n) = [].
Proof.
  intros Hc. unfold ramp_events. revert pos.
  induction n as [|n IH]; intros pos; [reflexivity|].
  cbn [ramp flat_map app writes_to]. rewrite Hc. apply IH.
Qed.

Lemma ramp_events_elapsed servo pos step n :
  elapsed (ramp_events servo pos step n) = STEP_DELAY * Z.of_nat n.
Proof.
  unfold ramp_events. revert pos.
  induction n as [|n IH]; intros pos; [reflexivity|].
  cbn [ramp flat_map app]. unfold elapsed in *. cbn [fold_right].
  rewrite IH. lia.
Qed.

Lemma elapsed_app a b : elapsed (a ++ b) = elapsed a + elapsed b.
Proof.
  unfold elapsed. induction a as [|e a IH]; [reflexivity|].
  cbn [app fold_right]. rewrite IH. destruct e; lia.
Qed.

Lemma sweep_count_start fromPos toPos :
  fromPos <> toPos ->
  Z.of_nat (sweep_count fromPos toPos fromPos) =
  Z.abs (toPos - fromPos) / 2 + 1.
Proof.
  intros Hne. unfold sweep_count, sweep_cond, step_of.
  assert (H : 0 <= Z.abs (toPos - fromPos) / 2)
    by (apply Z.div_pos; [apply Z.abs_nonneg|lia]).
  destruct (toPos >? fromPos) eqn:E; cbn [Z.gtb Z.compare].
  - replace (fromPos <=? toPos) with true by (symmetry; apply Z.leb_le; lia).
    lia.
  - replace (fromPos >=? toPos) with true
      by (symmetry; rewrite Z.geb_leb; apply Z.leb_le; lia).
    lia.
Qed.

Lemma motion_script_writes servo fromPos toPos :
  writes_to servo (motion_script servo fromPos toPos) =
  if fromPos =? toPos then []
  else ramp fromPos (step_of fromPos toPos) (sweep_count fromPos toPos fromPos)
       ++ [toPos].
Proof.
  unfold motion_script. destruct (fromPos =? toPos); [reflexivity|].
  rewrite writes_to_app, ramp_events_writes. cbn [writes_to].
  now rewrite Channel_eqb_refl.
Qed.

Lemma motion_script_writes_other servo c fromPos toPos :
  Channel_eqb servo c = false ->
  writes_to c (motion_script servo fromPos toPos) = [].
Proof.
  intros Hc. unfold motion_script. destruct (fromPos =? toPos); [reflexivity|].
  rewrite writes_to_app, (ramp_events_writes_other _ _ _ _ _ Hc).
  cbn [writes_to]. now rewrite Hc.
Qed.

Lemma motion_script_elapsed servo fromPos toPos :
  elapsed (motion_script servo fromPos toPos) = motion_time fromPos toPos.
Proof.
  unfold motion_script, motion_time.
  destruct (fromPos =? toPos) eqn:E; [reflexivity|].
  apply Z.eqb_neq in E.
  rewrite elapsed_app, ramp_events_elapsed, (sweep_count_start _ _ E).
  reflexivity.
Qed.

Lemma ramp_events_lines servo step n :
  forall pos p,
    serial_lines_from p (ramp_events servo pos step n) = [] /\
    pending_after p (ramp_events servo pos step n) = p.
Proof.
  unfold ramp_events.
  induction n as [|n IH]; intros pos p; [auto|].
  cbn [ramp flat_map app serial_lines_from pending_after]. apply IH.
Qed.

Lemma motion_script_lines servo fromPos toPos p :
  serial_lines_from p (motion_script servo fromPos toPos) = [] /\
  pending_after p (motion_script servo fromPos toPos) = p.
Proof.
  unfold motion_script. destruct (fromPos =? toPos); [auto|].
  rewrite serial_lines_from_app, pending_after_app.
  destruct (ramp_events_lines servo (step_of fromPos toPos)
              (sweep_count fromPos toPos fromPos) fromPos p) as [-> ->].
  auto.
Qed.

Lemma ramp_lower lo step n :
  0 <= step ->
  forall pos, lo <= pos -> Forall (fun x => lo <= x) (ramp pos step n).
Proof.
  intros Hstep. induction n as [|n IH]; intros pos Hpos; [constructor|].
  cbn [ramp]. constructor; [exact Hpos|]. apply IH. lia.
Qed.

Lemma ramp_upper hi step n :
  step <= 0 ->
  forall pos, pos <= hi -> Forall (fun x => x <= hi) (ramp pos step n).
Proof.
  intros Hstep. induction n as [|n IH]; intros pos Hpos; [constructor|].
  cbn [ramp]. constructor; [exact Hpos|]. apply IH. lia.
Qed.

Lemma ramp_up_sorted toPos n :
  forall pos,
    pos + 2 * (Z.of_nat n - 1) <= toPos ->
    StronglySorted Z.le (ramp pos 2 n ++ [toPos]).
Proof.
  induction n as [|n IH]; intros pos H.
  - cbn. repeat constructor.
  - cbn [ramp app]. constructor.
    + apply IH. lia.
    + apply Forall_app. split.
      * apply Forall_impl with (P := fun x => pos + 2 <= x);
          [intros; lia | apply ramp_lower; lia].
      * constructor; [lia|constructor].
Qed.

Lemma ramp_down_sorted toPos n :
  forall pos,
    toPos <= pos - 2 * (Z.of_nat n - 1) ->
    StronglySorted Z.ge (ramp pos (-2) n ++ [toPos]).
Proof.
  induction n as [|n IH]; intros pos H.
  - cbn. repeat constructor.
  - cbn [ramp app]. constructor.
    + apply IH. lia.
    + apply Forall_app. split.
      * apply Forall_impl with (P := fun x => x <= pos + -2);
          [intros; lia | apply ramp_upper; lia].
      * constructor; [lia|constructor].
Qed.

Lemma StronglySorted_prefix {A} (R : A -> A -> Prop) l r :
  StronglySorted R (l ++ r) -> StronglySorted R l.
Proof.
  induction l as [|x l IH]; [constructor|].
  cbn [app]. intros H. apply StronglySorted_inv in H. destruct H as [H1 H2].
  constructor; [now apply IH|].
  apply Forall_app in H2. tauto.
Qed.

Lemma motion_script_sorted servo fromPos toPos :
  (fromPos <= toPos ->
   StronglySorted Z.le (writes_to servo (motion_script servo fromPos toPos))) /\
  (toPos <= fromPos ->
   StronglySorted Z.ge (writes_to servo (motion_script servo fromPos toPos))).
Proof.
  rewrite motion_script_writes.
  destruct (fromPos =? toPos) eqn:E; [split; constructor|].
  apply Z.eqb_neq in E.
  pose proof (sweep_count_start _ _ E) as Hn.
  unfold step_of. split; intros H.
  - replace (toPos >? fromPos) with true by (symmetry; apply Z.gtb_lt; lia).
    apply ramp_up_sorted. rewrite Hn, Z.abs_eq by lia.
    Z.div_mod_to_equations. lia.
  - replace (toPos >? fromPos) with false
      by (symmetry; rewrite Z.gtb_ltb; apply Z.ltb_ge; lia).
    apply ramp_down_sorted. rewrite Hn, Z.abs_neq by lia.
    Z.div_mod_to_equations. lia.
Qed.



End Scripts.

Ltac innermost_scrutinee t :=
  lazymatch t with
  | match ?x with _ => _ end => innermost_scrutinee x
  | _ => t
  end.

(** Two states built from the same globals, up to the shape of the
    history. *)
Ltac state_eq :=
  lazy beta iota zeta delta
    [completed record set_rx set_systemReady set_currentPosition1
     set_currentPosition2 set_totalMoves set_leftMoves set_rightMoves
     set_startTime rx systemReady currentPosition1 currentPosition2
     totalMoves leftMoves rightMoves startTime trace];
  f_equal; try reflexivity;
  rewrite <- ?app_assoc; try reflexivity;
  symmetry; apply app_nil_r.

Section ChoreographyScript.

Variable P : Platform.

#[local] Arguments moveServoSmoothly : simpl never.
#[local] Arguments motion_script : simpl never.

(** One step of symbolic execution that keeps the script of each motion. *)
Ltac script_step H :=
  lazymatch type of H with
  | ?lhs = _ =>
      let x := innermost_scrutinee lhs in
      lazymatch x with
      | hw_fault _ _ _ => destruct x eqn:?
      | moveServoSmoothly ?Q ?c ?a ?b ?s =>
          let evs := fresh "evs" in
          let Hs := fresh "Hs" in
          let rest := fresh "rest" in
          let Hscript := fresh "Hscript" in
          let Hrest := fresh "Hrest" in
          destruct (moveServoSmoothly_script Q c a b s)
            as (evs & Hs & rest & Hscript & Hrest);
          destruct x as [[[]|] ?]; cbn [fst snd] in Hs, Hrest;
          [ subst rest; rewrite app_nil_r in Hscript
          | let c' := fresh "c" in
            let x' := fresh "x" in
            let rest' := fresh "rest" in
            destruct Hrest as (c' & x' & rest' & ->) ];
          subst
      end; cbn beta iota in H
  end.

Ltac use_scripts :=
  repeat match goal with
         | Hm : motion_script _ _ _ = _ |- _ =>
             lazy beta iota delta
               [record set_currentPosition1 currentPosition1] in Hm;
             rewrite Hm; clear Hm
         end.

Lemma movement_steps_script dir t s r s' :
  (dir = "LEFT" /\ t = LEFT_POSITION) \/
  (dir = "RIGHT" /\ t = RIGHT_POSITION) \/
  (dir = "CENTER" /\ t = CENTER_POSITION) ->
  movement_steps P dir t s = (r, s') ->
  exists evs,
    ran_until r (choreography dir t (currentPosition1 s)) evs /\
    ((r = Ok true /\ s' = completed dir s +++ evs) \/
     (r = Throw /\
      exists p1, In p1 [currentPosition1 s; t; CENTER_POSITION] /\
                 s' = set_currentPosition1 p1 s +++ evs)).
Proof.
  intros Hd H.
  unfold movement_steps, bind, when, Servo_write, hw_call, delay, emit, get,
    modify, ret, Serial_println in H.
  destruct Hd as [[-> ->]|[[-> ->]|[-> ->]]]; cbn in H;
    repeat script_step H;
    injection H as <- <-; destruct s.
  all: eexists; split;
     [ | first [ left; split; [reflexivity | state_eq]
               | right; split;
                 [reflexivity
                 | eexists; split;
                   [ | state_eq ];
                   cbn [In]; tauto ] ] ].
  all: unfold ran_until, choreography; cbn [currentPosition1].
  all: eexists; split;
    [ cbn; use_scripts; rewrite <- ?app_assoc; cbn [app]; reflexivity
    | first [reflexivity | do 3 eexists; reflexivity] ].
Qed.

Lemma executeSortingMovement_script d s t :
  systemReady s = true ->
  target_of (normalize d) = Some t ->
  (fst (executeSortingMovement P d s) = Ok true /\
   snd (executeSortingMovement P d s) =
   completed (normalize d) s +++
   (announcement (normalize d)
      ++ choreography (normalize d) t (currentPosition1 s))) \/
  (fst (executeSortingMovement P d s) = Ok false /\
   exists evs c x rest p1,
     choreography (normalize d) t (currentPosition1 s)
     = evs ++ ServoWrite c x :: rest /\
     In p1 [currentPosition1 s; t; CENTER_POSITION] /\
     snd (executeSortingMovement P d s) =
     set_currentPosition1 p1 s +++
     (announcement (normalize d) ++ evs
        ++ [SerialPrintln "ERROR: Servo movement failed"])).
Proof.
  intros Hr Ht.
  rewrite (executeSortingMovement_ready P d s t Hr Ht).
  unfold try_catch.
  destruct (movement_steps P (normalize d) t _) as [r s'] eqn:H.
  apply movement_steps_script in H; [|now apply target_of_cases].
  destruct H as (evs & (rest & Hscript & Hrest)
                 & [[-> ->]|[-> (p1 & Hp1 & ->)]]).
  - left. subst rest. rewrite app_nil_r in Hscript.
    cbn [currentPosition1 record] in Hscript. subst evs.
    split; [reflexivity|]. cbn [snd]. unfold announcement.
    destruct s. state_eq.
  - right. destruct Hrest as (c & x & rest' & ->).
    cbn [currentPosition1 record] in Hscript, Hp1.
    unfold bind, Serial_println, emit, ret. cbn [fst snd].
    split; [reflexivity|].
    exists evs, c, x, rest', p1. split; [exact Hscript|]. split; [exact Hp1|].
    unfold announcement. destruct s. state_eq.
Qed.

Lemma commandedAngle_app servo a b :
  commandedAngle servo (a ++ b) =
  match commandedAngle servo b with
  | Some x => Some x
  | None => commandedAngle servo a
  end.
Proof.
  unfold commandedAngle. rewrite writes_to_app, map_app.
  destruct (writes_to servo b) as [|x l] using rev_ind.
  - cbn. now rewrite app_nil_r.
  - rewrite map_app, app_assoc. cbn [map]. now rewrite !last_last.
Qed.

Lemma motion_script_ends servo fromPos toPos :
  fromPos <> toPos ->
  exists l,
    writes_to servo (motion_script servo fromPos toPos) = fromPos :: l ++ [toPos].
Proof.
  intros Hne. rewrite motion_script_writes.
  replace (fromPos =? toPos) with false by (symmetry; now apply Z.eqb_neq).
  pose proof (sweep_count_start _ _ Hne) as Hn.
  assert (H : 0 <= Z.abs (toPos - fromPos) / 2)
    by (apply Z.div_pos; [apply Z.abs_nonneg|lia]).
  destruct (sweep_count fromPos toPos fromPos) as [|n]; [lia|].
  cbn [ramp app]. eauto.
Qed.

Lemma motion_script_commanded servo fromPos toPos :
  commandedAngle servo (motion_script servo fromPos toPos) =
  if fromPos =? toPos then None else Some toPos.
Proof.
  destruct (fromPos =? toPos) eqn:E.
  - unfold motion_script. now rewrite E.
  - apply Z.eqb_neq in E. destruct (motion_script_ends servo _ _ E) as [l Hl].
    unfold commandedAngle. rewrite Hl.
    change (fromPos :: l ++ [toPos]) with ((fromPos :: l) ++ [toPos]).
    rewrite map_app. cbn [map]. now rewrite last_last.
Qed.

Lemma choreography_writes_primary dir t from :
  writes_to servo1 (choreography dir t from) =
  writes_to servo1 (motion_script servo1 from t)
  ++ (if t =? CENTER_POSITION then []
      else writes_to servo1 (motion_script servo1 t CENTER_POSITION)).
Proof.
  unfold choreography. rewrite !writes_to_app.
  destruct (String.eqb dir "CENTER"), (t =? CENTER_POSITION);
    cbn [writes_to Channel_eqb app]; now rewrite ?app_nil_r.
Qed.

Lemma choreography_writes_secondary dir t from :
  writes_to servo2 (choreography dir t from) =
  (if String.eqb dir "CENTER" then [] else [SERVO2_ACTIVE]) ++ [SERVO2_IDLE].
Proof.
  unfold choreography. rewrite !writes_to_app.
  rewrite (motion_script_writes_other servo1 servo2) by reflexivity.
  destruct (String.eqb dir "CENTER"), (t =? CENTER_POSITION);
    cbn [writes_to Channel_eqb app];
    try rewrite (motion_script_writes_other servo1 servo2) by reflexivity;
    reflexivity.
Qed.

Lemma choreography_elapsed dir t from :
  elapsed (choreography dir t from) = choreography_time dir t from.
Proof.
  unfold choreography, choreography_time.
  rewrite !elapsed_app, motion_script_elapsed.
  destruct (String.eqb dir "CENTER"), (t =? CENTER_POSITION);
    cbn [elapsed fold_right]; rewrite ?motion_script_elapsed;
    unfold HOLD_TIME; lia.
Qed.

Lemma executeSortingMovement_success d s :
  fst (executeSortingMovement P d s) = Ok true ->
  exists t,
    target_of (normalize d) = Some t /\
    snd (executeSortingMovement P d s) =
    completed (normalize d) s +++
    (announcement (normalize d)
       ++ choreography (normalize d) t (currentPosition1 s)).
Proof.
  intros Hok.
  destruct (executeSortingMovement_outcome P d s) as (b & evs & Hb & _ & Ht & _).
  rewrite Hok in Hb. injection Hb as <-.
  destruct (Ht eq_refl) as (Hr & Hin & _).
  assert (Htgt : exists t, target_of (normalize d) = Some t).
  { destruct (target_of (normalize d)) as [t|] eqn:E; [eauto|].
    now apply target_of_none in E. }
  destruct Htgt as [t Htgt]. exists t. split; [exact Htgt|].
  destruct (executeSortingMovement_script d s t Hr Htgt) as [[_ H]|[H _]].
  - exact H.
  - rewrite Hok in H. discriminate.
Qed.


(** X4.  When the system is ready and the direction valid, a call of
    [executeSortingMovement] that does not return [true] returns [false]:
    a hardware call failed.  It then did the choreography up to that
    hardware call and printed the servo-movement error; the statistics and
    the tracked secondary angle are as before, and the tracked primary angle
    is the one before, the target or the center angle. *)
Theorem executeSortingMovement_fault d s t :
  systemReady s = true ->
  target_of (normalize d) = Some t ->
  fst (executeSortingMovement P d s) <> Ok true ->
  fst (executeSortingMovement P d s) = Ok false /\
  counters (snd (executeSortingMovement P d s)) = counters s /\
  currentPosition2 (snd (executeSortingMovement P d s)) = currentPosition2 s /\
  In (currentPosition1 (snd (executeSortingMovement P d s)))
     [currentPosition1 s; t; CENTER_POSITION] /\
  exists evs c x rest,
    choreography (normalize d) t (currentPosition1 s)
    = evs ++ ServoWrite c x :: rest /\
    trace (snd (executeSortingMovement P d s)) =
    trace s ++ announcement (normalize d) ++ evs
      ++ [SerialPrintln "ERROR: Servo movement failed"].
Proof.
  intros Hr Ht Hne.
  destruct (executeSortingMovement_script d s t Hr Ht)
    as [[H _]|(H & evs & c & x & rest & p1 & Hscript & Hp1 & Hs)].
  - contradiction.
  - rewrite Hs. split; [exact H|].
    split; [reflexivity|]. split; [reflexivity|]. split; [exact Hp1|].
    exists evs, c, x, rest. split; [exact Hscript|]. reflexivity.
Qed.

(** X5.  A call of [executeSortingMovement] that returns [true] has
    written to the secondary servo exactly its active angle and then its
    idle angle for LEFT and RIGHT, and only its idle angle for CENTER. *)
Theorem executeSortingMovement_secondary_pulse d s :
  fst (executeSortingMovement P d s) = Ok true ->
  exists evs,
    trace (snd (executeSortingMovement P d s)) = trace s ++ evs /\
    writes_to servo2 evs =
    if String.eqb (normalize d) "CENTER" then [SERVO2_IDLE]
    else [SERVO2_ACTIVE; SERVO2_IDLE].
Proof.
  intros Hok. destruct (executeSortingMovement_success d s Hok) as (t & Ht & Hs).
  eexists. split; [rewrite Hs; reflexivity|].
  rewrite writes_to_app, choreography_writes_secondary.
  destruct (String.eqb (normalize d) "CENTER"); reflexivity.
Qed.

(** X6.  A call of [executeSortingMovement] that returns [true] for LEFT
    or RIGHT has written the target angle to the primary servo, and its
    last write to the primary servo is the center angle.  A successful CENTER
    call writes nothing to the primary servo when the tracked angle is
    already the center angle, and otherwise ends on the center angle too. *)
Theorem executeSortingMovement_primary_path d s :
  fst (executeSortingMovement P d s) = Ok true ->
  exists t evs,
    target_of (normalize d) = Some t /\
    trace (snd (executeSortingMovement P d s)) = trace s ++ evs /\
    (normalize d <> "CENTER" ->
     In t (writes_to servo1 evs) /\
     commandedAngle servo1 evs = Some CENTER_POSITION) /\
    (normalize d = "CENTER" ->
     if currentPosition1 s =? CENTER_POSITION
     then writes_to servo1 evs = []
     else commandedAngle servo1 evs = Some CENTER_POSITION).
Proof.
  intros Hok. destruct (executeSortingMovement_success d s Hok) as (t & Ht & Hs).
  exists t. eexists. split; [exact Ht|]. split; [rewrite Hs; reflexivity|].
  assert (Hw : forall l, writes_to servo1 (announcement (normalize d) ++ l)
                         = writes_to servo1 l) by reflexivity.
  assert (Hc : forall l, commandedAngle servo1 (announcement (normalize d) ++ l)
                         = commandedAngle servo1 l) by reflexivity.
  rewrite Hw, Hc. clear Hw Hc.
  apply target_of_cases in Ht.
  destruct Ht as [[E ->]|[[E ->]|[E ->]]]; rewrite E; split; intros Hd;
    try discriminate; try contradiction.
  - rewrite choreography_writes_primary. cbn [Z.eqb LEFT_POSITION CENTER_POSITION].
    destruct (motion_script_ends servo1 LEFT_POSITION CENTER_POSITION) as [l Hl];
      [discriminate|].
    split.
    + apply in_or_app. right. rewrite Hl. now left.
    + unfold commandedAngle. rewrite choreography_writes_primary.
      cbn [Z.eqb LEFT_POSITION CENTER_POSITION]. rewrite Hl.
      change (LEFT_POSITION :: l ++ [CENTER_POSITION])
        with ((LEFT_POSITION :: l) ++ [CENTER_POSITION]).
      rewrite app_assoc, map_app. cbn [map]. now rewrite last_last.
  - rewrite choreography_writes_primary. cbn [Z.eqb RIGHT_POSITION CENTER_POSITION Pos.eqb].
    destruct (motion_script_ends servo1 RIGHT_POSITION CENTER_POSITION) as [l Hl];
      [discriminate|].
    split.
    + apply in_or_app. right. rewrite Hl. now left.
    + unfold commandedAngle. rewrite choreography_writes_primary.
      cbn [Z.eqb RIGHT_POSITION CENTER_POSITION Pos.eqb]. rewrite Hl.
      change (RIGHT_POSITION :: l ++ [CENTER_POSITION])
        with ((RIGHT_POSITION :: l) ++ [CENTER_POSITION]).
      rewrite app_assoc, map_app. cbn [map]. now rewrite last_last.
  - destruct (currentPosition1 s =? CENTER_POSITION) eqn:Ec.
    + rewrite choreography_writes_primary, motion_script_writes, Ec. reflexivity.
    + unfold commandedAngle. rewrite choreography_writes_primary.
      cbn [Z.eqb CENTER_POSITION Pos.eqb]. rewrite app_nil_r.
      fold (commandedAngle servo1
              (motion_script servo1 (currentPosition1 s) CENTER_POSITION)).
      now rewrite motion_script_commanded, Ec.
Qed.

(** X7.  After a call of [executeSortingMovement] that returns [true],
    the tracked secondary angle is the secondary servo's commanded angle;
    and if the tracked primary angle was the primary servo's commanded angle
    before the call, it is so after it. *)
Theorem executeSortingMovement_keeps_tracking d s :
  fst (executeSortingMovement P d s) = Ok true ->
  let s' := snd (executeSortingMovement P d s) in
  commandedAngle servo2 (trace s') = Some (currentPosition2 s') /\
  (commandedAngle servo1 (trace s) = Some (currentPosition1 s) ->
   commandedAngle servo1 (trace s') = Some (currentPosition1 s')).
Proof.
  intros Hok. cbv zeta.
  destruct (executeSortingMovement_success d s Hok) as (t & Ht & Hs).
  rewrite Hs. cbn [trace record completed currentPosition1 currentPosition2].
  split.
  - rewrite commandedAngle_app. unfold commandedAngle at 1.
    rewrite writes_to_app, choreography_writes_secondary.
    destruct (String.eqb (normalize d) "CENTER"); reflexivity.
  - intros Hcur. rewrite commandedAngle_app.
    assert (Hc : forall l, commandedAngle servo1 (announcement (normalize d) ++ l)
                           = commandedAngle servo1 l) by reflexivity.
    rewrite Hc. unfold commandedAngle at 1.
    rewrite choreography_writes_primary, map_app.
    destruct (t =? CENTER_POSITION) eqn:Et.
    + apply Z.eqb_eq in Et. subst t. cbn [map]. rewrite app_nil_r.
      fold (commandedAngle servo1
              (motion_script servo1 (currentPosition1 s) CENTER_POSITION)).
      rewrite motion_script_commanded.
      destruct (currentPosition1 s =? CENTER_POSITION) eqn:Ec; [|reflexivity].
      apply Z.eqb_eq in Ec. now rewrite Hcur, Ec.
    + apply Z.eqb_neq in Et.
      destruct (motion_script_ends servo1 t CENTER_POSITION Et) as [l Hl].
      rewrite Hl.
      change (t :: l ++ [CENTER_POSITION]) with ((t :: l) ++ [CENTER_POSITION]).
      rewrite map_app, app_assoc. cbn [map]. now rewrite last_last.
Qed.

End ChoreographyScript.

(* ====================================================================== *)
(** ** Start-up *)

Section Startup.

Variable P : Platform.

Ltac fault_step H :=
  lazymatch type of H with
  | ?lhs = _ =>
      let x := innermost_scrutinee lhs in
      lazymatch x with
      | hw_fault _ _ _ => destruct x eqn:?
      end; cbn beta iota in H
  end.

Ltac all_faults_absent Hff :=
  repeat match goal with
         | Hf : hw_fault _ _ _ = true |- _ => rewrite Hff in Hf; discriminate Hf
         end.

Lemma initializeServos_cases s r s' :
  initializeServos P s = (r, s') ->
  (r = Ok true /\
   s' = set_currentPosition2 SERVO2_IDLE (set_currentPosition1 CENTER_POSITION s)
        +++ (SerialPrintln "Initializing servos..." :: init_script)) \/
  (r = Ok false /\ ~ fault_free P /\
   exists evs, In evs init_failures /\ s' = s +++ evs).
Proof.
  intros H.
  unfold initializeServos, try_catch, bind, Servo_attach, Servo_write, hw_call,
    Serial_println, delay, emit, modify, ret in H.
  cbn beta iota in H.
  repeat fault_step H; injection H as <- <-; destruct s.
  all: first
         [ left; split; [reflexivity|unfold init_script; state_eq]
         | right; split; [reflexivity|]; split;
           [ let Hff := fresh in intros Hff; all_faults_absent Hff
           | eexists; split; [|state_eq];
             cbn [init_failures init_stops init_script map firstn app In];
             auto 6 ] ].
Qed.

(** X8.  [initializeServos] never throws.  When it returns [true] (as it
    does on a platform without faults) both tracked angles are the angles
    last written to their servos: center and idle.  When it returns
    [false] it has changed no global, has written nothing to the secondary
    servo, and its last line is the initialisation error. *)
Theorem initializeServos_establishes_tracking s :
  (fault_free P -> fst (initializeServos P s) = Ok true) /\
  (fst (initializeServos P s) = Ok true \/
   fst (initializeServos P s) = Ok false) /\
  (fst (initializeServos P s) = Ok true ->
   currentPosition1 (snd (initializeServos P s)) = CENTER_POSITION /\
   currentPosition2 (snd (initializeServos P s)) = SERVO2_IDLE /\
   commandedAngle servo1 (trace (snd (initializeServos P s)))
   = Some CENTER_POSITION /\
   commandedAngle servo2 (trace (snd (initializeServos P s)))
   = Some SERVO2_IDLE) /\
  (fst (initializeServos P s) = Ok false ->
   exists evs pre,
     snd (initializeServos P s) = s +++ evs /\
     writes_to servo2 evs = [] /\
     evs = pre ++ [SerialPrintln "ERROR: Servo initialization failed"]).
Proof.
  destruct (initializeServos P s) as [r s'] eqn:H. cbn [fst snd].
  apply initializeServos_cases in H.
  destruct H as [[-> ->]|(-> & Hnf & evs & Hin & ->)].
  - split; [reflexivity|]. split; [now left|]. split; [|discriminate].
    intros _. cbn [currentPosition1 currentPosition2 record
                     set_currentPosition1 set_currentPosition2 trace].
    rewrite !commandedAngle_app. repeat split; reflexivity.
  - split; [intros Hff; contradiction|]. split; [now right|].
    split; [discriminate|]. intros _.
    cbn [init_failures init_stops init_script map firstn app In] in Hin.
    destruct Hin as [<-|[<-|[<-|[<-|[]]]]];
      match goal with
      | |- context [s +++ ?L] => exists L, (removelast L)
      end; repeat split; reflexivity.
Qed.

Lemma performStartupSequence_run s :
  performStartupSequence P s = (Ok tt, s +++ startup_blinks (LED_BUILTIN P)).
Proof.
  unfold performStartupSequence, for_upto.
  change (Z.to_nat 3) with 3%nat. cbn [for_from].
  unfold bind, digitalWrite, delay, emit, ret. cbn beta iota.
  now rewrite !record_record.
Qed.

Lemma performErrorSequence_run s :
  performErrorSequence P s = (Ok tt, s +++ error_blinks (LED_BUILTIN P)).
Proof.
  unfold performErrorSequence, for_upto.
  change (Z.to_nat 10) with 10%nat. cbn [for_from].
  unfold bind, digitalWrite, delay, emit, ret. cbn beta iota.
  now rewrite !record_record.
Qed.

(** What [setup] leaves behind: the servos initialised and the banner
    printed, or nothing changed and the error blinks. *)
Lemma setup_cases s :
  let s0 := s +++ (SerialBegin BAUD_RATE :: SerialSetTimeout SERIAL_TIMEOUT
                     :: startup_blinks (LED_BUILTIN P)) in
  let s1 := set_currentPosition2 SERVO2_IDLE
              (set_currentPosition1 CENTER_POSITION s0)
            +++ (SerialPrintln "Initializing servos..." :: init_script) in
  setup P s =
    (Ok tt,
     set_startTime (ulong (millis_at P (trace s1))) (set_systemReady true s1)
     +++ banner) \/
  (~ fault_free P /\
   exists evs,
     In evs init_failures /\
     setup P s =
     (Ok tt,
      s0 +++ (evs ++ SerialPrintln "ERROR: Servo initialization failed!"
                :: error_blinks (LED_BUILTIN P)))).
Proof.
  cbv zeta. remember (setup P s) as R eqn:HR.
  unfold setup in HR.
  unfold bind at 1, Serial_begin at 1, emit at 1 in HR.
  unfold bind at 1, Serial_setTimeout at 1, emit at 1 in HR.
  rewrite (bind_ok _ _ _ _ _ (performStartupSequence_run _)) in HR.
  rewrite !record_record in HR.
  cbn [app] in HR.
  set (s0 := s +++ _) in HR.
  destruct (initializeServos P s0) as [r s'] eqn:H.
  pose proof (initializeServos_cases _ _ _ H) as Hc.
  destruct Hc as [[-> ->]|(-> & Hnf & evs & Hin & ->)];
    rewrite (bind_ok _ _ _ _ _ H) in HR; subst R s0.
  - left. unfold bind, modify, millis, Serial_println, emit.
    cbn beta iota. f_equal. unfold banner. destruct s. state_eq.
  - right. split; [exact Hnf|]. exists evs. split; [exact Hin|].
    unfold bind, Serial_println, emit. cbn beta iota.
    rewrite performErrorSequence_run. f_equal. destruct s. state_eq.
Qed.

(** X9.  [setup] never throws, and on a platform without faults it makes
    the system ready.  Whenever it makes a system ready, both tracked
    angles are the angles last written to their servos (center and idle),
    the statistics are untouched, the start time is the clock read just
    before the banner, and the serial output of the start-up ends with the
    readiness token. *)
Theorem setup_ready s :
  fst (setup P s) = Ok tt /\
  (fault_free P -> systemReady (snd (setup P s)) = true) /\
  (systemReady s = false ->
   systemReady (snd (setup P s)) = true ->
   currentPosition1 (snd (setup P s)) = CENTER_POSITION /\
   currentPosition2 (snd (setup P s)) = SERVO2_IDLE /\
   commandedAngle servo1 (trace (snd (setup P s))) = Some CENTER_POSITION /\
   commandedAngle servo2 (trace (snd (setup P s))) = Some SERVO2_IDLE /\
   counters (snd (setup P s)) = counters s /\
   exists evs lines,
     trace (snd (setup P s)) = trace s ++ evs ++ banner /\
     startTime (snd (setup P s)) = ulong (millis_at P (trace s ++ evs)) /\
     serial_lines (evs ++ banner) =
     lines ++ ["System initialized successfully"; "READY"]%string).
Proof.
  pose proof (setup_cases s) as Hc. cbv zeta in Hc.
  destruct Hc as [E|(Hnf & evs & Hin & E)]; rewrite E; cbn [fst snd].
  - split; [reflexivity|]. split; [reflexivity|]. intros _ _.
    cbn [currentPosition1 currentPosition2 record set_startTime
           set_systemReady set_currentPosition1 set_currentPosition2 trace
           counters totalMoves leftMoves rightMoves startTime].
    split; [reflexivity|]. split; [reflexivity|].
    rewrite !commandedAngle_app.
    split; [reflexivity|]. split; [reflexivity|]. split; [reflexivity|].
    exists (SerialBegin BAUD_RATE :: SerialSetTimeout SERIAL_TIMEOUT
              :: startup_blinks (LED_BUILTIN P)
              ++ SerialPrintln "Initializing servos..." :: init_script).
    exists ["Initializing servos...";
            "Both servos initialized and positioned";
            "============================================";
            "Arduino Dual Servo ML Sorting Controller";
            "Servo 1 (Pin 12): Primary sorting";
            "Servo 2 (Pin 13): Secondary control";
            "Commands: LEFT, RIGHT, CENTER, TEST, STATUS";
            "============================================"]%string.
    split; [rewrite <- !app_assoc; reflexivity|].
    split; [rewrite <- !app_assoc; reflexivity|].
    reflexivity.
  - split; [reflexivity|]. split; [intros Hff; contradiction|].
    cbn [systemReady record]. intros -> Habs. discriminate.
Qed.

(** X10.  When [setup] does not make a system ready that was not ready, it
    has changed no global; it has written nothing to the secondary servo;
    its serial output is the line announcing the initialisation and the two
    initialisation errors, without any readiness token; and the last thing
    it did is the ten error blinks of the built-in LED. *)
Theorem setup_failure s :
  systemReady s = false ->
  systemReady (snd (setup P s)) = false ->
  exists evs pre,
    snd (setup P s) = s +++ evs /\
    writes_to servo2 evs = [] /\
    serial_lines evs =
    ["Initializing servos..."; "ERROR: Servo initialization failed";
     "ERROR: Servo initialization failed!"]%string /\
    evs = pre ++ error_blinks (LED_BUILTIN P).
Proof.
  intros Hr Hnot.
  pose proof (setup_cases s) as Hc. cbv zeta in Hc.
  destruct Hc as [E|(Hnf & evs & Hin & E)]; rewrite E in *; cbn [fst snd] in *.
  - discriminate.
  - rewrite record_record.
    cbn [init_failures init_stops init_script map firstn app In] in Hin.
    eexists.
    exists (SerialBegin BAUD_RATE :: SerialSetTimeout SERIAL_TIMEOUT
              :: startup_blinks (LED_BUILTIN P)
              ++ evs ++ [SerialPrintln "ERROR: Servo initialization failed!"]).
    split; [reflexivity|].
    split; [|split; [|cbn [app]; rewrite <- !app_assoc; reflexivity]];
      destruct Hin as [<-|[<-|[<-|[<-|[]]]]]; reflexivity.
Qed.

End Startup.

(* ====================================================================== *)
(** ** Invariants of the running firmware *)

Section Safety.

Variable P : Platform.

Lemma safe_step_refl s : safe_step s s.
Proof.
  split; [reflexivity|]. split; [reflexivity|]. split; [auto|].
  exists []. rewrite app_nil_r. split; [reflexivity|].
  split; [intros _; constructor|]. intros _. repeat split; reflexivity.
Qed.

Lemma safe_step_trans s1 s2 s3 :
  safe_step s1 s2 -> safe_step s2 s3 -> safe_step s1 s3.
Proof.
  intros (Hr1 & Ht1 & Hk1 & e1 & He1 & Hw1 & Hn1)
         (Hr2 & Ht2 & Hk2 & e2 & He2 & Hw2 & Hn2).
  split; [congruence|]. split; [congruence|]. split; [auto|].
  exists (e1 ++ e2). split; [rewrite He2, He1, app_assoc; reflexivity|].
  rewrite hardware_writes_app. split.
  - intros Hk. apply Forall_app. auto.
  - intros Hnr. destruct (Hn1 Hnr) as (W1 & C1 & A1 & B1).
    destruct Hn2 as (W2 & C2 & A2 & B2); [congruence|].
    rewrite W1, W2. repeat split; congruence.
Qed.

Lemma safe_step_record s evs :
  hardware_writes evs = [] -> safe_step s (s +++ evs).
Proof.
  intros Hw.
  split; [reflexivity|]. split; [reflexivity|]. split; [auto|].
  exists evs. rewrite Hw. split; [reflexivity|].
  split; [intros _; constructor|]. intros _. repeat split; reflexivity.
Qed.

Lemma safe_ret {A} (a : A) : safe_code (ret a).
Proof. intros s. exists a, s. split; [reflexivity|apply safe_step_refl]. Qed.

Lemma safe_bind {A B} (m : M A) (k : A -> M B) :
  safe_code m -> (forall a, safe_code (k a)) -> safe_code (bind m k).
Proof.
  intros Hm Hk s. destruct (Hm s) as (a & s1 & E1 & S1).
  destruct (Hk a s1) as (b & s2 & E2 & S2).
  exists b, s2. split; [|eapply safe_step_trans; eauto].
  unfold bind. now rewrite E1.
Qed.

Lemma safe_emit e :
  hardware_writes [e] = [] -> safe_code (emit e).
Proof.
  intros He s. exists tt, (s +++ [e]).
  split; [reflexivity|now apply safe_step_record].
Qed.

Lemma safe_println t : safe_code (Serial_println t).
Proof. now apply safe_emit. Qed.

Lemma safe_delay ms : safe_code (delay ms).
Proof. now apply safe_emit. Qed.

Lemma safe_get {A} (f : Sys -> A) : safe_code (get f).
Proof. intros s. exists (f s), s. split; [reflexivity|apply safe_step_refl]. Qed.

Lemma safe_for body :
  (forall i, safe_code (body i)) ->
  forall n i, safe_code (for_from i n body).
Proof.
  intros Hb. induction n as [|n IH]; intros i; cbn [for_from].
  - apply safe_ret.
  - apply safe_bind; [apply Hb|]. intros _. apply IH.
Qed.

Lemma motion_script_events servo fromPos toPos :
  Forall (motion_event servo (Z.min fromPos toPos) (Z.max fromPos toPos))
         (motion_script servo fromPos toPos).
Proof.
  destruct (moveServoSmoothly_spec quiet servo fromPos toPos (boot ""))
    as (evs & Hs & Hall & Hff & _).
  destruct (moveServoSmoothly_script quiet servo fromPos toPos (boot ""))
    as (evs' & Hs' & rest & Hscript & Hrest).
  rewrite (Hff quiet_fault_free) in Hrest. subst rest.
  rewrite app_nil_r in Hscript. rewrite Hs in Hs'.
  apply (f_equal trace) in Hs'. cbn [trace record boot app] in Hs'.
  congruence.
Qed.

Lemma motion_script_safe fromPos toPos :
  0 <= fromPos <= 180 ->
  0 <= toPos <= 180 ->
  Forall safe_write (hardware_writes (motion_script servo1 fromPos toPos)).
Proof.
  intros Ha Hb. apply Forall_forall. intros [c x] Hin.
  destruct (motion_event_writes _ _ _ _ (motion_script_events servo1 fromPos toPos)
              c x Hin) as [-> Hx].
  cbn. lia.
Qed.

Lemma known_position_range x :
  In x [LEFT_POSITION; CENTER_POSITION; RIGHT_POSITION] -> 0 <= x <= 180.
Proof.
  unfold LEFT_POSITION, CENTER_POSITION, RIGHT_POSITION. cbn [In].
  intros [<-|[<-|[<-|[]]]]; lia.
Qed.

Lemma choreography_safe dir t from :
  In t [LEFT_POSITION; CENTER_POSITION; RIGHT_POSITION] ->
  In from [LEFT_POSITION; CENTER_POSITION; RIGHT_POSITION] ->
  Forall safe_write (hardware_writes (choreography dir t from)).
Proof.
  intros Ht Hf. apply known_position_range in Ht, Hf.
  unfold choreography. rewrite !hardware_writes_app.
  apply Forall_app; split; [|apply Forall_app; split;
    [|apply Forall_app; split; [|apply Forall_app; split]]].
  - destruct (String.eqb dir "CENTER"); cbn [hardware_writes];
      [constructor|]. constructor; [now left|constructor].
  - now apply motion_script_safe.
  - constructor.
  - destruct (t =? CENTER_POSITION); cbn [hardware_writes]; [constructor|].
    apply motion_script_safe; [exact Ht|unfold CENTER_POSITION; lia].
  - cbn [hardware_writes]. constructor; [now right|constructor].
Qed.

Lemma target_known dir t :
  target_of dir = Some t ->
  In t [LEFT_POSITION; CENTER_POSITION; RIGHT_POSITION].
Proof.
  intros H. apply target_of_cases in H. cbn [In].
  destruct H as [[_ ->]|[[_ ->]|[_ ->]]]; auto.
Qed.

Lemma executeSortingMovement_safe d : safe_code (executeSortingMovement P d).
Proof.
  intros s. destruct (systemReady s) eqn:Hr.
  - destruct (target_of (normalize d)) as [t|] eqn:Ht.
    + pose proof (target_known _ _ Ht) as Hk.
      destruct (executeSortingMovement_script P d s t Hr Ht)
        as [[Hok Hs]|(Hok & evs & c & x & rest & p1 & Hscript & Hp1 & Hs)];
        destruct (executeSortingMovement P d s) as [r s']; cbn [fst snd] in *;
        subst r s'; do 2 eexists; (split; [reflexivity|]).
      * split; [reflexivity|]. split; [reflexivity|]. split.
        { intros _. split; [cbn; auto|reflexivity]. }
        eexists. split; [reflexivity|]. split.
        { intros [Hcur _]. rewrite hardware_writes_app. cbn [announcement
            hardware_writes app]. now apply choreography_safe. }
        { intros Hn. cbn [completed systemReady] in Hn. congruence. }
      * split; [reflexivity|]. split; [reflexivity|]. split.
        { intros [Hcur Hsec]. split; [|exact Hsec].
          cbn [currentPosition1 record set_currentPosition1].
          cbn [In] in Hp1 |- *. cbn [In] in Hk, Hcur.
          destruct Hp1 as [<-|[<-|[<-|[]]]]; tauto. }
        eexists. split; [reflexivity|]. split.
        { intros [Hcur _].
          pose proof (choreography_safe (normalize d) t _ Hk Hcur) as Hall.
          rewrite Hscript, hardware_writes_app in Hall.
          apply Forall_app in Hall. destruct Hall as [Hall _].
          rewrite !hardware_writes_app. cbn [announcement hardware_writes app].
          rewrite app_nil_r. exact Hall. }
        { intros Hn. congruence. }
    + rewrite (executeSortingMovement_invalid P d s Hr Ht).
      do 2 eexists. split; [reflexivity|]. now apply safe_step_record.
  - rewrite (executeSortingMovement_not_ready P d s Hr).
    do 2 eexists. split; [reflexivity|]. now apply safe_step_record.
Qed.

Ltac safe_code_tac :=
  repeat first
    [ apply safe_println
    | apply safe_delay
    | apply safe_ret
    | apply safe_get
    | apply executeSortingMovement_safe
    | apply safe_bind; [|intros ?] ].

Lemma report_movement_safe name : safe_code (report_movement P name).
Proof.
  unfold report_movement. apply safe_bind; [apply executeSortingMovement_safe|].
  intros []; apply safe_println.
Qed.

Lemma runCompleteTest_safe : safe_code (runCompleteTest P).
Proof.
  unfold runCompleteTest, for_upto.
  apply safe_bind; [apply safe_println|]. intros _.
  apply safe_bind; [|intros _; apply safe_println].
  apply safe_for. intros i. safe_code_tac.
Qed.

Lemma millis_safe : safe_code (millis P).
Proof.
  intros s. do 2 eexists. split; [reflexivity|apply safe_step_refl].
Qed.

Lemma freeMemory_safe : safe_code (freeMemory P).
Proof.
  intros s. do 2 eexists. split; [reflexivity|apply safe_step_refl].
Qed.

Lemma printSystemStatus_safe : safe_code (printSystemStatus P).
Proof.
  unfold printSystemStatus.
  apply safe_bind; [apply millis_safe|]. intros now.
  repeat first
    [ apply safe_println
    | apply safe_get
    | apply freeMemory_safe
    | apply safe_bind; [|intros ?] ].
Qed.

Lemma processCommand_safe command : safe_code (processCommand P command).
Proof.
  unfold processCommand.
  apply safe_bind; [apply safe_println|]. intros _.
  apply safe_bind; [|intros _; apply safe_println].
  repeat match goal with
         | |- safe_code (if ?b then _ else _) => destruct b
         end;
    first [ apply report_movement_safe
          | apply runCompleteTest_safe
          | apply printSystemStatus_safe
          | safe_code_tac ].
Qed.

Lemma loop_safe : safe_code (loop P).
Proof.
  unfold loop.
  apply safe_bind.
  { intros s. do 2 eexists. split; [reflexivity|apply safe_step_refl]. }
  intros available.
  apply safe_bind; [|intros _; apply safe_delay].
  unfold when. destruct (available >? 0); [|apply safe_ret].
  apply safe_bind; [|intros command; apply processCommand_safe].
  intros s. unfold Serial_readStringUntil.
  destruct (WString.split_at newline (rx s)) as [line rest].
  do 2 eexists. split; [reflexivity|].
  split; [reflexivity|]. split; [reflexivity|]. split; [auto|].
  exists []. cbn [trace set_rx]. rewrite app_nil_r. split; [reflexivity|].
  split; [intros _; constructor|]. intros _. repeat split; reflexivity.
Qed.

Lemma run_loop_safe n : forall s, safe_step s (run_loop P n s).
Proof.
  induction n as [|n IH]; intros s; cbn [run_loop].
  - apply safe_step_refl.
  - destruct (loop_safe s) as (a & s' & E & Hs). rewrite E. cbn [snd].
    eapply safe_step_trans; [exact Hs|apply IH].
Qed.

(** X11.  Nothing the firmware does after [setup] changes the readiness
    flag or the recorded start time: not a command, whatever it is and
    however it ends, and not any number of iterations of the main loop,
    none of which throws. *)
Theorem readiness_is_never_changed s :
  (forall command,
      fst (processCommand P command s) = Ok tt /\
      systemReady (snd (processCommand P command s)) = systemReady s /\
      startTime (snd (processCommand P command s)) = startTime s) /\
  fst (loop P s) = Ok tt /\
  (forall n,
      systemReady (run_loop P n s) = systemReady s /\
      startTime (run_loop P n s) = startTime s).
Proof.
  split; [|split].
  - intros command.
    destruct (processCommand_safe command s) as ([] & s' & E & Hr & Ht & _).
    rewrite E. auto.
  - destruct (loop_safe s) as ([] & s' & E & _). now rewrite E.
  - intros n. destruct (run_loop_safe n s) as (Hr & Ht & _). auto.
Qed.


(** X13.  From power-up on, whatever arrives on the serial link and
    whichever hardware calls fail, every angle the firmware writes to the
    primary servo lies in [0,180] and every angle it writes to the secondary
    servo is its active or its idle angle; and the tracked angles are
    always 0, 90 or 180 for the primary servo and the idle angle for the
    secondary one. *)
Theorem firmware_writes_safe pending n :
  Forall safe_write (hardware_writes (trace (firmware P pending n))) /\
  tracked_ok (firmware P pending n).
Proof.
  unfold firmware.
  assert (Hsetup : tracked_ok (snd (setup P (boot pending))) /\
                   Forall safe_write
                     (hardware_writes (trace (snd (setup P (boot pending)))))).
  { pose proof (setup_cases P (boot pending)) as Hc. cbv zeta in Hc.
    destruct Hc as [E|(_ & evs & Hin & E)]; rewrite E; cbn [snd].
    - split; [split; [cbn; auto|reflexivity]|].
      lazy beta iota delta
        [trace record set_startTime set_systemReady set_currentPosition1
         set_currentPosition2 boot].
      rewrite !hardware_writes_app. cbn.
      constructor; [cbn; unfold CENTER_POSITION; lia|].
      constructor; [now right|constructor].
    - split; [split; [cbn; auto|reflexivity]|].
      lazy beta iota delta [trace record boot].
      rewrite !hardware_writes_app.
      cbn [init_failures init_stops init_script map firstn app In] in Hin.
      destruct Hin as [<-|[<-|[<-|[<-|[]]]]]; cbn;
        repeat (constructor; [cbn; unfold CENTER_POSITION; lia|]);
        constructor. }
  destruct Hsetup as [Hk Hw].
  destruct (run_loop_safe n (snd (setup P (boot pending))))
    as (_ & _ & Hk' & evs & He & Hw' & _).
  split; [|now apply Hk'].
  rewrite He, hardware_writes_app. apply Forall_app. auto.
Qed.

End Safety.

(* ====================================================================== *)
(** ** More on commands *)

Section MoreCommands.

Variable P : Platform.

(** X14.  A command that is none of the five known tokens after
    normalisation (the empty command among them) changes no global and
    writes to no servo: it is answered with its echo, the unknown-command
    error, the list of valid commands and the readiness token, and with
    nothing else. *)
Theorem unknown_command_is_reported command s :
  ~ In (normalize command) known_commands ->
  processCommand P command s =
  (Ok tt,
   s +++ [SerialPrintln ("Received command: " ++ normalize command);
          SerialPrintln ("ERROR: Unknown command - " ++ normalize command);
          SerialPrintln "Valid commands: LEFT, RIGHT, CENTER, TEST, STATUS";
          SerialPrintln "READY"]).
Proof.
  intros Hn. rewrite processCommand_dispatch.
  assert (E : forall t, In t known_commands ->
                        String.eqb (normalize command) t = false).
  { intros t Ht. apply String.eqb_neq. intros Heq.
    rewrite Heq in Hn. contradiction. }
  rewrite !E by (cbn; auto 6).
  unfold bind, Serial_println, emit. now rewrite !record_record.
Qed.


Lemma ulong_incr_ulong x k : ulong_incr (ulong (x + k)) = ulong (x + (k + 1)).
Proof.
  unfold ulong_incr, ulong. rewrite Zplus_mod_idemp_l. f_equal. lia.
Qed.

Lemma test_step_succeeds d s :
  fault_free P ->
  systemReady s = true ->
  In d ["LEFT"; "RIGHT"; "CENTER"] ->
  exists s',
    test_step P d s = (Ok tt, s') /\
    systemReady s' = true /\
    totalMoves s' = ulong_incr (totalMoves s) /\
    leftMoves s' = (if String.eqb d "LEFT" then ulong_incr (leftMoves s)
                    else leftMoves s) /\
    rightMoves s' = (if String.eqb d "RIGHT" then ulong_incr (rightMoves s)
                     else rightMoves s) /\
    currentPosition1 s' = CENTER_POSITION /\
    currentPosition2 s' = SERVO2_IDLE.
Proof.
  intros Hff Hr Hd.
  unfold test_step, bind at 1, Serial_println at 1, emit at 1.
  set (s0 := s +++ _).
  assert (Ht : exists t, target_of (normalize d) = Some t).
  { cbn [In] in Hd. destruct Hd as [<-|[<-|[<-|[]]]]; eexists; reflexivity. }
  destruct Ht as [t Ht].
  destruct (executeSortingMovement_valid P d s0 t Hr Ht) as (_ & _ & _ & Hok).
  specialize (Hok Hff).
  destruct (executeSortingMovement_success P d s0 Hok) as (t' & _ & Hs).
  unfold bind, delay, emit.
  destruct (executeSortingMovement P d s0) as [r s1]. cbn [fst snd] in *.
  subst r s1. cbn beta iota.
  eexists. split; [reflexivity|].
  rewrite (normalize_token d Hd). subst s0.
  cbn [systemReady totalMoves leftMoves rightMoves currentPosition1
         currentPosition2 completed record].
  rewrite Hr. repeat split; reflexivity.
Qed.

(** X16.  On a ready system and a platform without faults, the TEST
    command completes all five movements: it adds five to [totalMoves] and
    one each to [leftMoves] and [rightMoves] (modulo 2^32) and leaves the
    tracked angles at center and idle. *)
Theorem runCompleteTest_counts s :
  fault_free P ->
  systemReady s = true ->
  fst (runCompleteTest P s) = Ok tt /\
  totalMoves (snd (runCompleteTest P s)) = ulong (totalMoves s + 5) /\
  leftMoves (snd (runCompleteTest P s)) = ulong (leftMoves s + 1) /\
  rightMoves (snd (runCompleteTest P s)) = ulong (rightMoves s + 1) /\
  currentPosition1 (snd (runCompleteTest P s)) = CENTER_POSITION /\
  currentPosition2 (snd (runCompleteTest P s)) = SERVO2_IDLE.
Proof.
  intros Hff Hr.
  set (s0 := s +++ [SerialPrintln "Starting complete system test..."]).
  destruct (test_step_succeeds "CENTER" s0 Hff Hr)
    as (s1 & E1 & R1 & T1 & L1 & Q1 & _); [cbn; auto|].
  destruct (test_step_succeeds "LEFT" s1 Hff R1)
    as (s2 & E2 & R2 & T2 & L2 & Q2 & _); [cbn; auto|].
  destruct (test_step_succeeds "CENTER" s2 Hff R2)
    as (s3 & E3 & R3 & T3 & L3 & Q3 & _); [cbn; auto|].
  destruct (test_step_succeeds "RIGHT" s3 Hff R3)
    as (s4 & E4 & R4 & T4 & L4 & Q4 & _); [cbn; auto|].
  destruct (test_step_succeeds "CENTER" s4 Hff R4)
    as (s5 & E5 & R5 & T5 & L5 & Q5 & A5 & B5); [cbn; auto|].
  assert (E : runCompleteTest P s =
              (Ok tt, s5 +++ [SerialPrintln "Complete system test finished"])).
  { rewrite runCompleteTest_script. unfold test_script.
    unfold bind at 1, Serial_println at 1, emit at 1. fold s0.
    rewrite (bind_ok _ _ _ _ _ E1), (bind_ok _ _ _ _ _ E2),
      (bind_ok _ _ _ _ _ E3), (bind_ok _ _ _ _ _ E4), (bind_ok _ _ _ _ _ E5).
    reflexivity. }
  rewrite E. cbn [fst snd].
  cbn [totalMoves leftMoves rightMoves currentPosition1 currentPosition2 record].
  cbn [String.eqb Ascii.eqb Bool.eqb] in *.
  split; [reflexivity|].
  split; [|split; [|split; [|auto]]].
  - rewrite T5, T4, T3, T2, T1. subst s0. cbn [totalMoves record].
    unfold ulong_incr at 5.
    now rewrite !ulong_incr_ulong.
  - rewrite L5, L4, L3, L2, L1. reflexivity.
  - rewrite Q5, Q4, Q3, Q2, Q1. reflexivity.
Qed.

Lemma split_at_first t line rest :
  lacks t line ->
  WString.split_at t (line ++ String t rest) = (line, rest).
Proof.
  induction line as [|a line IH]; cbn [lacks append WString.split_at].
  - intros _. now rewrite Ascii.eqb_refl.
  - intros [Hne Hl]. apply Ascii.eqb_neq in Hne. rewrite Hne.
    now rewrite (IH Hl).
Qed.

Lemma keeps_rx_bind {A B} (m : M A) (k : A -> M B) :
  keeps_rx m -> (forall a, keeps_rx (k a)) -> keeps_rx (bind m k).
Proof.
  intros Hm Hk s. destruct (Hm s) as (a & s1 & E1 & R1).
  destruct (Hk a s1) as (b & s2 & E2 & R2).
  exists b, s2. split; [|congruence]. unfold bind. now rewrite E1.
Qed.

Lemma keeps_rx_emit e : keeps_rx (emit e).
Proof. intros s. do 2 eexists. split; reflexivity. Qed.

Lemma keeps_rx_ret {A} (a : A) : keeps_rx (ret a).
Proof. intros s. do 2 eexists. split; reflexivity. Qed.

Lemma keeps_rx_get {A} (f : Sys -> A) : keeps_rx (get f).
Proof. intros s. do 2 eexists. split; reflexivity. Qed.

Lemma keeps_rx_for body :
  (forall i, keeps_rx (body i)) ->
  forall n i, keeps_rx (for_from i n body).
Proof.
  intros Hb. induction n as [|n IH]; intros i; cbn [for_from].
  - apply keeps_rx_ret.
  - apply keeps_rx_bind; [apply Hb|]. intros _. apply IH.
Qed.

Lemma executeSortingMovement_keeps_rx d :
  keeps_rx (executeSortingMovement P d).
Proof.
  intros s.
  destruct (executeSortingMovement_outcome P d s) as (b & evs & Hb & _ & Ht & Hf).
  destruct (executeSortingMovement P d s) as [r s']. cbn [fst snd] in *.
  subst r. exists b, s'. split; [reflexivity|].
  destruct b.
  - destruct (Ht eq_refl) as (_ & _ & ->). reflexivity.
  - destruct (Hf eq_refl) as (p1 & ->). reflexivity.
Qed.

Ltac keeps_rx_tac :=
  repeat first
    [ apply keeps_rx_emit
    | apply keeps_rx_ret
    | apply keeps_rx_get
    | apply executeSortingMovement_keeps_rx
    | apply keeps_rx_bind; [|intros ?] ].

Lemma processCommand_keeps_rx command : keeps_rx (processCommand P command).
Proof.
  unfold processCommand.
  apply keeps_rx_bind; [apply keeps_rx_emit|]. intros _.
  apply keeps_rx_bind; [|intros _; apply keeps_rx_emit].
  repeat match goal with
         | |- keeps_rx (if ?b then _ else _) => destruct b
         end.
  - unfold report_movement. apply keeps_rx_bind;
      [apply executeSortingMovement_keeps_rx|intros []; apply keeps_rx_emit].
  - unfold report_movement. apply keeps_rx_bind;
      [apply executeSortingMovement_keeps_rx|intros []; apply keeps_rx_emit].
  - unfold report_movement. apply keeps_rx_bind;
      [apply executeSortingMovement_keeps_rx|intros []; apply keeps_rx_emit].
  - unfold runCompleteTest, for_upto.
    apply keeps_rx_bind; [apply keeps_rx_emit|]. intros _.
    apply keeps_rx_bind; [|intros _; apply keeps_rx_emit].
    apply keeps_rx_for. intros i. keeps_rx_tac.
  - unfold printSystemStatus.
    apply keeps_rx_bind;
      [intros s; do 2 eexists; split; reflexivity|]. intros now.
    repeat first
      [ apply keeps_rx_emit
      | apply keeps_rx_get
      | (intros s; do 2 eexists; split; reflexivity)
      | apply keeps_rx_bind; [|intros ?] ].
  - keeps_rx_tac.
Qed.

(** X17.  An iteration of the main loop handles exactly the first line of
    the pending input: when the receive buffer holds a line without a
    newline, the newline and then more, the iteration runs [processCommand]
    on that line (trimmed), waits 10 ms and leaves what followed the newline
    in the buffer. *)
Theorem loop_takes_first_line line rest s :
  lacks newline line ->
  rx s = (line ++ String newline rest)%string ->
  loop P s =
  (processCommand P (WString.trim line) ;; delay 10) (set_rx rest s) /\
  rx (snd (loop P s)) = rest.
Proof.
  intros Hl Hrx.
  assert (E : loop P s =
              (processCommand P (WString.trim line) ;; delay 10) (set_rx rest s)).
  { unfold loop. unfold bind at 1. unfold Serial_available at 1.
    rewrite Hrx.
    replace (Z.of_nat (String.length (line ++ String newline rest)) >? 0)
      with true by (destruct line; reflexivity).
    cbn [when]. unfold bind at 1. unfold bind at 1.
    unfold Serial_readStringUntil at 1.
    rewrite Hrx, (split_at_first _ _ _ Hl). reflexivity. }
  split; [exact E|]. rewrite E.
  destruct (processCommand_keeps_rx (WString.trim line) (set_rx rest s))
    as ([] & s' & Ep & Hrx').
  rewrite (bind_ok _ _ _ _ _ Ep). exact Hrx'.
Qed.

End MoreCommands.

(* ====================================================================== *)
(** ** Normalisation of commands *)

Lemma toupper_idem c : WString.toupper (WString.toupper c) = WString.toupper c.
Proof. destruct c as [[] [] [] [] [] [] [] []]; reflexivity. Qed.

Lemma isspace_toupper c : WString.isspace (WString.toupper c) = WString.isspace c.
Proof. destruct c as [[] [] [] [] [] [] [] []]; reflexivity. Qed.

Lemma toUpperCase_idem s :
  WString.toUpperCase (WString.toUpperCase s) = WString.toUpperCase s.
Proof.
  induction s as [|c s IH]; [reflexivity|].
  cbn [WString.toUpperCase]. now rewrite toupper_idem, IH.
Qed.

Lemma toUpperCase_rev_onto s :
  forall acc,
    WString.toUpperCase (WString.rev_onto s acc) =
    WString.rev_onto (WString.toUpperCase s) (WString.toUpperCase acc).
Proof.
  induction s as [|c s IH]; intros acc; [reflexivity|].
  cbn [WString.rev_onto WString.toUpperCase]. now rewrite IH.
Qed.

Lemma toUpperCase_skip_space s :
  WString.toUpperCase (WString.skip_space s) =
  WString.skip_space (WString.toUpperCase s).
Proof.
  induction s as [|c s IH]; [reflexivity|].
  cbn [WString.skip_space WString.toUpperCase]. rewrite isspace_toupper.
  destruct (WString.isspace c); [exact IH|reflexivity].
Qed.

Lemma toUpperCase_trim s :
  WString.toUpperCase (WString.trim s) = WString.trim (WString.toUpperCase s).
Proof.
  unfold WString.trim, WString.rev.
  now rewrite toUpperCase_rev_onto, toUpperCase_skip_space,
    toUpperCase_rev_onto, toUpperCase_skip_space.
Qed.

Lemma append_empty_r s : (s ++ "")%string = s.
Proof. induction s as [|c s IH]; [reflexivity|]. cbn. now rewrite IH. Qed.

Lemma append_append a b c : ((a ++ b) ++ c)%string = (a ++ (b ++ c))%string.
Proof. induction a as [|x a IH]; [reflexivity|]. cbn. now rewrite IH. Qed.

Lemma rev_onto_append s :
  forall acc, WString.rev_onto s acc = (WString.rev s ++ acc)%string.
Proof.
  unfold WString.rev.
  induction s as [|c s IH]; intros acc; [reflexivity|].
  cbn [WString.rev_onto]. rewrite IH, (IH (String c "")), append_append.
  reflexivity.
Qed.

Lemma rev_append a b :
  WString.rev (a ++ b) = (WString.rev b ++ WString.rev a)%string.
Proof.
  induction a as [|x a IH].
  - cbn. now rewrite append_empty_r.
  - unfold WString.rev in *. cbn [append WString.rev_onto].
    rewrite !(rev_onto_append _ (String x "")).
    unfold WString.rev. rewrite IH. apply append_append.
Qed.

Lemma rev_rev s : WString.rev (WString.rev s) = s.
Proof.
  induction s as [|c s IH]; [reflexivity|].
  unfold WString.rev at 2. cbn [WString.rev_onto].
  rewrite rev_onto_append, rev_append, IH. reflexivity.
Qed.

Lemma skip_space_head_ok s : head_ok (WString.skip_space s).
Proof.
  induction s as [|c s IH]; [exact I|].
  cbn [WString.skip_space]. destruct (WString.isspace c) eqn:E; [exact IH|].
  exact E.
Qed.

Lemma head_ok_skip_space s : head_ok s -> WString.skip_space s = s.
Proof.
  destruct s as [|c s]; [reflexivity|]. cbn. now intros ->.
Qed.

Lemma skip_space_suffix s :
  exists sp, s = (sp ++ WString.skip_space s)%string.
Proof.
  induction s as [|c s [sp IH]]; [now exists ""|].
  cbn [WString.skip_space]. destruct (WString.isspace c).
  - exists (String c sp). cbn. now rewrite <- IH.
  - now exists "".
Qed.

Lemma head_ok_append a b : head_ok (a ++ b) -> head_ok a.
Proof. destruct a; [intros _; exact I|]. cbn. auto. Qed.

Lemma trim_ends_ok s :
  head_ok (WString.trim s) /\ head_ok (WString.rev (WString.trim s)).
Proof.
  unfold WString.trim.
  set (v := WString.skip_space s).
  set (u := WString.skip_space (WString.rev v)).
  split.
  - destruct (skip_space_suffix (WString.rev v)) as [sp Hsp]. fold u in Hsp.
    apply (f_equal WString.rev) in Hsp. rewrite rev_rev, rev_append in Hsp.
    pose proof (skip_space_head_ok s) as Hv. fold v in Hv.
    rewrite Hsp in Hv. now apply head_ok_append in Hv.
  - rewrite rev_rev. apply skip_space_head_ok.
Qed.

Lemma trim_idem s : WString.trim (WString.trim s) = WString.trim s.
Proof.
  destruct (trim_ends_ok s) as [H1 H2].
  unfold WString.trim at 1.
  rewrite (head_ok_skip_space _ H1), (head_ok_skip_space _ H2).
  apply rev_rev.
Qed.

Lemma normalize_idem s : normalize (normalize s) = normalize s.
Proof.
  unfold normalize.
  now rewrite toUpperCase_trim, toUpperCase_idem, trim_idem.
Qed.

Lemma normalize_trim s : normalize (WString.trim s) = normalize s.
Proof.
  unfold normalize. now rewrite toUpperCase_trim, trim_idem.
Qed.

Section Normalisation.

Variable P : Platform.

(** X18.  Commands and directions are matched without regard to letter
    case and surrounding white space: [processCommand] does the same for a
    line, for the line trimmed (as [loop] passes it) and for the line
    normalised, and [executeSortingMovement] does the same for a direction
    and for the direction normalised.  Normalising twice changes nothing,
    and a normalised token neither begins nor ends with white space. *)
Theorem commands_are_normalised command s :
  processCommand P (normalize command) s = processCommand P command s /\
  processCommand P (WString.trim command) s = processCommand P command s /\
  executeSortingMovement P (normalize command) s =
  executeSortingMovement P command s /\
  normalize (normalize command) = normalize command /\
  head_ok (normalize command) /\
  head_ok (WString.rev (normalize command)).
Proof.
  split; [|split; [|split; [|split]]].
  - now rewrite !processCommand_dispatch, normalize_idem.
  - now rewrite !processCommand_dispatch, normalize_trim.
  - unfold executeSortingMovement.
    change (WString.trim (WString.toUpperCase (normalize command)))
      with (normalize (normalize command)).
    now rewrite normalize_idem.
  - apply normalize_idem.
  - apply trim_ends_ok.
Qed.

End Normalisation.

(* ====================================================================== *)
(** ** Concrete runs of the further properties *)




(** X4, on a LEFT request on the board that jams at 50. *)
Lemma executeSortingMovement_fault_witness :
  systemReady (started "") = true /\
  target_of (normalize "LEFT") = Some LEFT_POSITION /\
  fst (executeSortingMovement jammed "LEFT" (started "")) = Ok false /\
  counters (snd (executeSortingMovement jammed "LEFT" (started "")))
  = counters (started "").
Proof.
  assert (Hne : fst (executeSortingMovement jammed "LEFT" (started "")) <> Ok true)
    by (vm_compute; discriminate).
  destruct (executeSortingMovement_fault jammed "LEFT" (started "") LEFT_POSITION
              (started_ready "") eq_refl Hne) as (Hf & Hc & _).
  split; [reflexivity|]. split; [reflexivity|]. split; [exact Hf|exact Hc].
Defined.

(** X5, on a RIGHT request right after start-up. *)
Lemma executeSortingMovement_secondary_pulse_witness :
  fst (executeSortingMovement quiet "RIGHT" (started "")) = Ok true /\
  exists evs,
    trace (snd (executeSortingMovement quiet "RIGHT" (started "")))
    = trace (started "") ++ evs /\
    writes_to servo2 evs =
    if String.eqb (normalize "RIGHT") "CENTER" then [SERVO2_IDLE]
    else [SERVO2_ACTIVE; SERVO2_IDLE].
Proof.
  assert (Hok : fst (executeSortingMovement quiet "RIGHT" (started "")) = Ok true)
    by (vm_compute; reflexivity).
  split; [exact Hok|].
  exact (executeSortingMovement_secondary_pulse quiet "RIGHT" (started "") Hok).
Defined.

(** X6, on a RIGHT request right after start-up. *)
Lemma executeSortingMovement_primary_path_witness :
  fst (executeSortingMovement quiet "RIGHT" (started "")) = Ok true /\
  exists t evs,
    target_of (normalize "RIGHT") = Some t /\
    trace (snd (executeSortingMovement quiet "RIGHT" (started "")))
    = trace (started "") ++ evs /\
    In t (writes_to servo1 evs) /\
    commandedAngle servo1 evs = Some CENTER_POSITION.
Proof.
  assert (Hok : fst (executeSortingMovement quiet "RIGHT" (started "")) = Ok true)
    by (vm_compute; reflexivity).
  split; [exact Hok|].
  destruct (executeSortingMovement_primary_path quiet "RIGHT" (started "") Hok)
    as (t & evs & Ht & He & Hmove & _).
  exists t, evs. split; [exact Ht|]. split; [exact He|].
  apply Hmove. discriminate.
Defined.

(** X7, on a LEFT request right after start-up. *)
Lemma executeSortingMovement_keeps_tracking_witness :
  fst (executeSortingMovement quiet "LEFT" (started "")) = Ok true /\
  commandedAngle servo1 (trace (started "")) = Some (currentPosition1 (started "")) /\
  commandedAngle servo1
    (trace (snd (executeSortingMovement quiet "LEFT" (started ""))))
  = Some (currentPosition1 (snd (executeSortingMovement quiet "LEFT" (started "")))).
Proof.
  assert (Hok : fst (executeSortingMovement quiet "LEFT" (started "")) = Ok true)
    by (vm_compute; reflexivity).
  assert (Hcur : commandedAngle servo1 (trace (started ""))
                 = Some (currentPosition1 (started ""))) by reflexivity.
  split; [exact Hok|]. split; [exact Hcur|].
  pose proof (executeSortingMovement_keeps_tracking quiet "LEFT" (started "") Hok)
    as H.
  cbv zeta in H. destruct H as [_ H]. exact (H Hcur).
Defined.

(** X8, at power-up on a board without faults. *)
Lemma initializeServos_establishes_tracking_witness :
  fst (initializeServos quiet (boot "")) = Ok true /\
  commandedAngle servo1 (trace (snd (initializeServos quiet (boot ""))))
  = Some CENTER_POSITION.
Proof.
  destruct (initializeServos_establishes_tracking quiet (boot ""))
    as (Hff & _ & Htrue & _).
  pose proof (Hff quiet_fault_free) as Hok.
  split; [exact Hok|]. destruct (Htrue Hok) as (_ & _ & H & _). exact H.
Defined.

(** X9, at power-up on a board without faults. *)
Lemma setup_ready_witness :
  systemReady (boot "") = false /\
  systemReady (snd (setup quiet (boot ""))) = true /\
  currentPosition1 (snd (setup quiet (boot ""))) = CENTER_POSITION /\
  commandedAngle servo2 (trace (snd (setup quiet (boot "")))) = Some SERVO2_IDLE.
Proof.
  destruct (setup_ready quiet (boot "")) as (_ & Hff & H).
  pose proof (Hff quiet_fault_free) as Hr.
  destruct (H eq_refl Hr) as (H1 & _ & _ & H2 & _).
  split; [reflexivity|]. split; [exact Hr|]. split; [exact H1|exact H2].
Defined.

(** X10, at power-up on the board whose secondary servo does not attach. *)
Lemma setup_failure_witness :
  systemReady (boot "") = false /\
  systemReady (snd (setup unplugged (boot ""))) = false /\
  exists evs pre,
    snd (setup unplugged (boot "")) = boot "" +++ evs /\
    writes_to servo2 evs = [] /\
    serial_lines evs =
    ["Initializing servos..."; "ERROR: Servo initialization failed";
     "ERROR: Servo initialization failed!"]%string /\
    evs = pre ++ error_blinks (LED_BUILTIN unplugged).
Proof.
  assert (Hnot : systemReady (snd (setup unplugged (boot ""))) = false)
    by (vm_compute; reflexivity).
  split; [reflexivity|]. split; [exact Hnot|].
  exact (setup_failure unplugged (boot "") eq_refl Hnot).
Defined.


(** X14, on the command FOO right after start-up. *)
Lemma unknown_command_is_reported_witness :
  ~ In (normalize "foo") known_commands /\
  processCommand quiet "foo" (started "") =
  (Ok tt,
   started "" +++
   [SerialPrintln ("Received command: " ++ normalize "foo");
    SerialPrintln ("ERROR: Unknown command - " ++ normalize "foo");
    SerialPrintln "Valid commands: LEFT, RIGHT, CENTER, TEST, STATUS";
    SerialPrintln "READY"]).
Proof.
  assert (Hn : ~ In (normalize "foo") known_commands).
  { vm_compute. intros [H|[H|[H|[H|[H|[]]]]]]; discriminate H. }
  split; [exact Hn|].
  exact (unknown_command_is_reported quiet "foo" (started "") Hn).
Defined.


(** X16, on a TEST right after start-up on a board without faults. *)
Lemma runCompleteTest_counts_witness :
  systemReady (started "") = true /\
  totalMoves (snd (runCompleteTest quiet (started ""))) = 5 /\
  leftMoves (snd (runCompleteTest quiet (started ""))) = 1 /\
  rightMoves (snd (runCompleteTest quiet (started ""))) = 1.
Proof.
  split; [reflexivity|].
  destruct (runCompleteTest_counts quiet (started "") quiet_fault_free
              (started_ready "")) as (_ & Ht & Hl & Hr & _).
  split; [exact Ht|]. split; [exact Hl|exact Hr].
Defined.

(** X17, on two commands waiting in the receive buffer. *)
Lemma loop_takes_first_line_witness :
  lacks newline "left" /\
  rx (started ("left" ++ String newline "status"))
  = ("left" ++ String newline "status")%string /\
  rx (snd (loop quiet (started ("left" ++ String newline "status")))) = "status".
Proof.
  assert (Hl : lacks newline "left").
  { cbn. repeat split; intros H; discriminate H. }
  split; [exact Hl|]. split; [reflexivity|].
  destruct (loop_takes_first_line quiet "left" "status"
              (started ("left" ++ String newline "status")) Hl eq_refl)
    as [_ H].
  exact H.
Defined.
